(** * CRNN.tf2 data pipeline: [dataset.py]

    A shallow embedding of [dataset.py] (the [OCRDataLoader] class and the
    post-inference helpers [map_to_chars] and [map_and_count]) together with
    the properties its specification states about it.

    Conventions of the embedding.
    - Python [str] values and [tf.string] scalars are [string]s; one [ascii]
      stands for one unicode character (code points 0..255), so
      [tf.strings.unicode_split] cuts a string into its one-character
      strings.
    - Python [int]s, numpy and TensorFlow integers are [Z]; where a fixed
      width matters it is written out: [tf.cast(_, tf.int32)] as
      [cast_int32], a Python integer given to a tensor operation as
      [convert_default].
    - The version of numpy, on which the error of a ragged annotation file
      depends, is a parameter ([object_arrays]).
    - A Python list is a [list]; [table[i]] is [getitem], with Python's
      negative indices and its [IndexError].
    - A raised exception is the [Raise] case of [result]; loops are folds
      in that monad ([for_each]).
    - [os.path] is [posixpath]. *)

From Stdlib Require Import ZArith Lia Ascii String.
From stdpp Require Import base list strings gmap.

Open Scope Z_scope.

(** ** Exceptions and the error monad *)

Inductive exn : Set :=
  | IndexError
  | ValueError
  | FileNotFoundError
  | InvalidArgumentError
  | FailedPreconditionError
  | OutOfRangeError.

Inductive result (A : Type) : Type :=
  | Ok (a : A)
  | Raise (e : exn).
Arguments Ok {A} a.
Arguments Raise {A} e.

#[global] Instance result_ret : MRet result := fun A a => Ok a.
#[global] Instance result_bind : MBind result := fun A B f r =>
  match r with
  | Ok a => f a
  | Raise e => Raise e
  end.
#[global] Instance result_fmap : FMap result := fun A B f r =>
  match r with
  | Ok a => Ok (f a)
  | Raise e => Raise e
  end.

Definition is_ok {A} (r : result A) : bool :=
  match r with
  | Ok _ => true
  | Raise _ => false
  end.

(** [for x in l: st = body(st, x)], stopping at the first exception. *)
Fixpoint for_each {S A : Type} (body : S -> A -> result S) (st : S) (l : list A)
  : result S :=
  match l with
  | [] => Ok st
  | x :: l' => st' ← body st x; for_each body st' l'
  end.

(** ** Python list indexing *)

(** [l[i]]: an index in [-len(l), len(l)) selects an element, a negative one
    counting from the end; any other index raises [IndexError]. *)
Definition getitem {A : Type} (l : list A) (i : Z) : result A :=
  let n := Z.of_nat (length l) in
  let j := if i <? 0 then i + n else i in
  if (0 <=? j) && (j <? n) then
    match l !! Z.to_nat j with
    | Some x => Ok x
    | None => Raise IndexError
    end
  else Raise IndexError.

Definition valid_index {A : Type} (l : list A) (i : Z) : Prop :=
  - Z.of_nat (length l) <= i < Z.of_nat (length l).

Definition valid_indexb {A : Type} (l : list A) (i : Z) : bool :=
  (- Z.of_nat (length l) <=? i) && (i <? Z.of_nat (length l)).

(** ** [map_to_chars] *)

(** The two variables mutated by the inner loop. *)
Record decode_state : Type := DecodeState {
  text : string;
  previous_char : Z
}.

(** The body of [for char_index in line]. Each [continue] returns the state
    reached so far. *)
Definition char_step (table : list string) (blank_index : Z) (merge_repeated : bool)
    (st : decode_state) (char_index : Z) : result decode_state :=
  if merge_repeated && (char_index =? previous_char st) then Ok st
  else
    let st := DecodeState (text st) char_index in
    if char_index =? blank_index then Ok st
    else
      c ← getitem table char_index;
      Ok (DecodeState (text st +:+ c) (previous_char st)).

(** [text = ""; previous_char = -1] *)
Definition line_start : decode_state := DecodeState "" (-1).

Definition decode_line (table : list string) (blank_index : Z) (merge_repeated : bool)
    (line : list Z) : result decode_state :=
  for_each (char_step table blank_index merge_repeated) line_start line.

Definition map_to_chars (inputs : list (list Z)) (table : list string)
    (blank_index : Z) (merge_repeated : bool) : result (list string) :=
  for_each
    (fun lines line =>
       st ← decode_line table blank_index merge_repeated line;
       Ok (lines ++ [text st]))
    [] inputs.

(** The text of one decoded line. *)
Definition decode_text (table : list string) (blank_index : Z) (merge_repeated : bool)
    (line : list Z) : result string :=
  text <$> decode_line table blank_index merge_repeated line.

(** An id the decoder can handle: the blank, which is never looked up, or
    an index [table] accepts. *)
Definition id_ok (table : list string) (blank_index : Z) (i : Z) : bool :=
  (i =? blank_index) || valid_indexb table i.

(** ** Sparse tensors *)

(** The two integer types of the tensors of this program: the ids a CTC
    decoder and the lookup table return are [tf.int64], the label batches of
    the loader [tf.int32]. *)
Inductive DType : Set :=
  | tf_int32
  | tf_int64.

(** A rank-2 [tf.SparseTensor]: [indices] holds the (row, column) of each
    stored entry, [values] the entry, [dense_shape] the (rows, columns) of
    the dense tensor it stands for, [dtype] the type of the entries. *)
Record SparseTensor : Type := mkSparseTensor {
  indices : list (Z * Z);
  values : list Z;
  dense_shape : Z * Z;
  dtype : DType
}.

(** [tf.cast(x, tf.int32)] of an int64: the low 32 bits, signed. *)
Definition cast_int32 (x : Z) : Z := (x + 2 ^ 31) mod 2 ^ 32 - 2 ^ 31.

(** The Python integer given as [default_value], as a value of the type of
    the tensor: a number that does not fit in 64 bits is refused
    ([ValueError]); one that does becomes an int64 and, for an int32
    tensor, is cut to its low 32 bits. *)
Definition convert_default (dt : DType) (default_value : Z) : result Z :=
  if (- 2 ^ 63 <=? default_value) && (default_value <? 2 ^ 63) then
    Ok (match dt with
        | tf_int64 => default_value
        | tf_int32 => cast_int32 default_value
        end)
  else Raise ValueError.

Definition index_ltb (a b : Z * Z) : bool :=
  (a.1 <? b.1) || ((a.1 =? b.1) && (a.2 <? b.2)).

Definition index_eqb (a b : Z * Z) : bool :=
  (a.1 =? b.1) && (a.2 =? b.2).

Fixpoint strictly_sorted (ixs : list (Z * Z)) : bool :=
  match ixs with
  | a :: ((b :: _) as rest) => index_ltb a b && strictly_sorted rest
  | _ => true
  end.

Definition in_bounds (shape : Z * Z) (ix : Z * Z) : bool :=
  (0 <=? ix.1) && (ix.1 <? shape.1) && (0 <=? ix.2) && (ix.2 <? shape.2).

(** The stored value at [ix], if there is one. *)
Fixpoint sparse_get (ixs : list (Z * Z)) (vals : list Z) (ix : Z * Z) : option Z :=
  match ixs, vals with
  | a :: ixs', v :: vals' => if index_eqb a ix then Some v else sparse_get ixs' vals' ix
  | _, _ => None
  end.

(** The dense rows of [sp] with [fill], a value of the type of [sp], at the
    positions not stored. With [validate_indices=True] the indices must lie
    inside [dense_shape], be in lexicographic order and not repeat, else
    [InvalidArgumentError]. *)
Definition dense_rows (sp : SparseTensor) (fill : Z) : result (list (list Z)) :=
  if negb ((length (indices sp) =? length (values sp))%nat
           && (0 <=? (dense_shape sp).1) && (0 <=? (dense_shape sp).2)
           && forallb (in_bounds (dense_shape sp)) (indices sp)
           && strictly_sorted (indices sp))
  then Raise InvalidArgumentError
  else
    Ok ((fun r =>
           (fun c => default fill (sparse_get (indices sp) (values sp) (r, c)))
           <$> seqZ 0 (dense_shape sp).2)
        <$> seqZ 0 (dense_shape sp).1).

(** [tf.sparse.to_dense(sp, default_value=d)], with its default
    [validate_indices=True]: [d] is first made a value of the type of the
    tensor; the dense tensor has the stored value at each stored index and
    that value everywhere else; [.numpy()] turns it into rows. *)
Definition sparse_to_dense (sp : SparseTensor) (default_value : Z)
  : result (list (list Z)) :=
  fill ← convert_default (dtype sp) default_value;
  dense_rows sp fill.

(** ** [map_and_count] *)

(** [count = 0; for y_pred, y in pairs: if y_pred == y: count += 1] *)
Definition count_matches (pairs : list (string * string)) : Z :=
  fold_left (fun count p => if String.eqb p.1 p.2 then count + 1 else count) pairs 0.

Definition map_and_count (decoded : list SparseTensor) (Y : SparseTensor)
    (mapper : list string) (blank_index : Z) (merge_repeated : bool) : result Z :=
  decoded0 ← getitem decoded 0;
  decoded ← sparse_to_dense decoded0 blank_index;
  Y ← sparse_to_dense Y blank_index;
  decoded ← map_to_chars decoded mapper blank_index merge_repeated;
  Y ← map_to_chars Y mapper blank_index merge_repeated;
  Ok (count_matches (zip decoded Y)).

(** Lines 121-127 of [map_and_count]: what it does with the two dense
    arrays. *)
Definition count_rows (decoded Y : list (list Z)) (mapper : list string)
    (blank_index : Z) (merge_repeated : bool) : result Z :=
  decoded ← map_to_chars decoded mapper blank_index merge_repeated;
  Y ← map_to_chars Y mapper blank_index merge_repeated;
  Ok (count_matches (zip decoded Y)).

(** ** The vocabulary table *)

(** [tf.lookup.StaticHashTable]: the entries put in by the initializer and
    the value returned for a key that has none. *)
Record StaticHashTable : Type := mkStaticHashTable {
  entries : gmap string Z;
  default_value : Z
}.

(** [tf.lookup.TextFileInitializer(path, tf.string, WHOLE_LINE, tf.int64,
    LINE_NUMBER)]: each line of the file is a key, its 0-based line number
    the value. The lines are read one after the other: an empty line stops
    the initialization ([InvalidArgumentError]), and so does inserting a key
    that is already there with another value ([FailedPreconditionError]). *)
Fixpoint insert_lines (lines : list string) (line_number : Z) (m : gmap string Z)
  : result (gmap string Z) :=
  match lines with
  | [] => Ok m
  | key :: lines' =>
      if String.eqb key EmptyString then Raise InvalidArgumentError
      else
        match m !! key with
        | Some previous =>
            if previous =? line_number then insert_lines lines' (line_number + 1) m
            else Raise FailedPreconditionError
        | None => insert_lines lines' (line_number + 1) (<[key := line_number]> m)
        end
  end.

(** Lines 24-30 of [__init__], on the lines of the table file. The default
    value is made an int64 before the file is read, and is refused when it
    does not fit ([ValueError]); a file without any line cannot initialize
    a table ([OutOfRangeError]). *)
Definition make_table (lines : list string) (blank_index : Z) : result StaticHashTable :=
  default_value ← convert_default tf_int64 blank_index;
  match lines with
  | [] => Raise OutOfRangeError
  | _ =>
      m ← insert_lines lines 0 ∅;
      Ok (mkStaticHashTable m default_value)
  end.

(** [table.lookup(key)] *)
Definition table_lookup (table : StaticHashTable) (key : string) : Z :=
  default (default_value table) (entries table !! key).

(** ** Encoding labels *)

(** [tf.strings.unicode_split(label, "UTF-8")] on one string. *)
Fixpoint unicode_split (label : string) : list string :=
  match label with
  | EmptyString => []
  | String c rest => String c EmptyString :: unicode_split rest
  end.

(** The indices [(r, c), (r, c + 1), ...] of [n] entries of row [r]. *)
Fixpoint row_indices (r c : Z) (n : nat) : list (Z * Z) :=
  match n with
  | O => []
  | S n' => (r, c) :: row_indices r (c + 1) n'
  end.

Fixpoint ragged_indices (r : Z) (rows : list (list Z)) : list (Z * Z) :=
  match rows with
  | [] => []
  | row :: rows' => row_indices r 0 (length row) ++ ragged_indices (r + 1) rows'
  end.

(** [RaggedTensor.to_sparse()] of a ragged tensor of rank 2 and type int64:
    the entries in row-major order, in a dense shape as wide as the longest
    row. *)
Definition ragged_to_sparse (rows : list (list Z)) : SparseTensor :=
  mkSparseTensor (ragged_indices 0 rows) (concat rows)
    (Z.of_nat (length rows), Z.of_nat (max_list (length <$> rows))) tf_int64.

(** The ids of one label: a row of [mapped_label], after the cast. *)
Definition encode_label (table : StaticHashTable) (label : string) : list Z :=
  (fun c => cast_int32 (table_lookup table c)) <$> unicode_split label.

(** [_convert_label], applied to a batch: [label] is the vector of the
    label strings of the batch. *)
Definition _convert_label {Image : Type} (table : StaticHashTable)
    (image : Image) (label : list string) : Image * SparseTensor :=
  let chars := unicode_split <$> label in
  let mapped_label := fmap (table_lookup table) <$> chars in
  let sparse_label := ragged_to_sparse mapped_label in
  let sparse_label :=
    mkSparseTensor (indices sparse_label) (cast_int32 <$> values sparse_label)
      (dense_shape sparse_label) tf_int32 in
  (image, sparse_label).

(** A label whose characters are all on lines of the table other than line
    [blank_index]. *)
Definition encodable (lines : list string) (blank : Z) (label : string) : Prop :=
  forall c, c ∈ unicode_split label ->
    exists i : nat, lines !! i = Some c /\ Z.of_nat i <> blank.

(** ** Python strings and paths *)

(** [str.isspace] on the code points below 256. *)
Definition is_space (c : ascii) : bool :=
  let n := Z.of_N (N_of_ascii c) in
  ((9 <=? n) && (n <=? 13)) || ((28 <=? n) && (n <=? 32)) || (n =? 133) || (n =? 160).

Fixpoint lstrip (s : string) : string :=
  match s with
  | EmptyString => EmptyString
  | String c s' => if is_space c then lstrip s' else s
  end.

Fixpoint rstrip (s : string) : string :=
  match s with
  | EmptyString => EmptyString
  | String c s' =>
      match rstrip s' with
      | EmptyString => if is_space c then EmptyString else String c EmptyString
      | r => String c r
      end
  end.

(** [s.strip()] *)
Definition strip (s : string) : string := rstrip (lstrip s).

(** [s.split()]: the maximal runs of characters that are not whitespace. *)
Fixpoint split_ws (s : string) : list string :=
  match s with
  | EmptyString => []
  | String c s' =>
      if is_space c then split_ws s'
      else
        match s' with
        | EmptyString => [String c EmptyString]
        | String c' _ =>
            if is_space c' then String c EmptyString :: split_ws s'
            else
              match split_ws s' with
              | w :: ws => String c w :: ws
              | [] => [String c EmptyString]
              end
        end
  end.

(** [s.split(sep)] for a separator of one character: the fields between
    the separators, at least one. *)
Fixpoint split_on (sep : ascii) (s : string) : list string :=
  match s with
  | EmptyString => [EmptyString]
  | String c s' =>
      if Ascii.eqb c sep then EmptyString :: split_on sep s'
      else
        match split_on sep s' with
        | field :: fields => String c field :: fields
        | [] => [String c EmptyString]
        end
  end.

Fixpoint contains (sep : ascii) (s : string) : bool :=
  match s with
  | EmptyString => false
  | String c s' => Ascii.eqb c sep || contains sep s'
  end.

(** [p[:p.rfind('/') + 1]] *)
Fixpoint head_of_path (p : string) : string :=
  match p with
  | EmptyString => EmptyString
  | String c p' => if contains "/" p then String c (head_of_path p') else EmptyString
  end.

Fixpoint all_sep (s : string) : bool :=
  match s with
  | EmptyString => true
  | String c s' => Ascii.eqb c "/" && all_sep s'
  end.

(** [s.rstrip('/')] *)
Fixpoint rstrip_sep (s : string) : string :=
  match s with
  | EmptyString => EmptyString
  | String c s' =>
      match rstrip_sep s' with
      | EmptyString => if Ascii.eqb c "/" then EmptyString else String c EmptyString
      | r => String c r
      end
  end.

(** [os.path.dirname(p)] *)
Definition dirname (p : string) : string :=
  let head := head_of_path p in
  if negb (String.eqb head EmptyString) && negb (all_sep head)
  then rstrip_sep head
  else head.

Fixpoint ends_with_sep (s : string) : bool :=
  match s with
  | EmptyString => false
  | String c EmptyString => Ascii.eqb c "/"
  | String _ s' => ends_with_sep s'
  end.

(** [os.path.join(a, b)] *)
Definition path_join (a b : string) : string :=
  match b with
  | String "/" _ => b
  | _ =>
      if String.eqb a EmptyString || ends_with_sep a then a +:+ b
      else a +:+ String "/" b
  end.

(** ** numpy arrays of strings *)

(** [np.array] of a list of lists of strings: a matrix when there is at
    least one row and the rows have one length; the empty vector of shape
    [(0,)] for no row at all. For rows of several lengths the versions of
    numpy differ: before 1.24 the result is a vector of list objects, from
    1.24 on [np.array] raises [ValueError]. The source does not say which
    numpy it runs on, so the version is a parameter, [object_arrays]: [true]
    for the older behaviour. *)
Inductive ndarray : Type :=
  | Matrix (rows : list (list string))
  | EmptyVector
  | ObjectVector (rows : list (list string)).

(** The fixed-width unicode type of numpy does not keep trailing NUL
    characters: an item read back from the array has lost them. *)
Fixpoint np_item (s : string) : string :=
  match s with
  | EmptyString => EmptyString
  | String c s' =>
      match np_item s' with
      | EmptyString => if Ascii.eqb c "000" then EmptyString else String c EmptyString
      | r => String c r
      end
  end.

Definition np_array (object_arrays : bool) (rows : list (list string))
  : result ndarray :=
  match rows with
  | [] => Ok EmptyVector
  | row :: rows' =>
      if forallb (fun row' => (length row' =? length row)%nat) rows'
      then Ok (Matrix ((fun row' : list string => np_item <$> row') <$> rows))
      else if object_arrays then Ok (ObjectVector rows)
      else Raise ValueError
  end.

(** [content[:, 0]]: the first column of a matrix; [IndexError] for an array
    of rank 1 (too many indices) and for a matrix without columns. *)
Definition column0 (content : ndarray) : result (list string) :=
  match content with
  | Matrix rows =>
      for_each (fun column row => item ← getitem row 0; Ok (column ++ [item])) [] rows
  | EmptyVector => Raise IndexError
  | ObjectVector _ => Raise IndexError
  end.

(** ** [read_imagepaths_and_labels] *)

(** [open(path).readlines()] is [readlines path]: the lines of the file, or
    the exception of a file that cannot be opened. [object_arrays] is the
    version of numpy, as for [np_array]. *)
Section Annotations.
Variable object_arrays : bool.
Variable readlines : string -> result (list string).

(** The body of [for annpath in annotation_path.split(',')]; [acc] is the
    pair of [imgpaths] and [labels]. *)
Definition read_annotation_file (acc : list string * list string) (annpath : string)
  : result (list string * list string) :=
  let annotation_folder := dirname annpath in
  lines ← readlines annpath;
  content ← np_array object_arrays ((fun line => split_ws (strip line)) <$> lines);
  imgpaths_local ← column0 content;
  labels_local ←
    for_each
      (fun labels_local line =>
         label ← getitem (split_on "_" line) 1;
         Ok (labels_local ++ [label]))
      [] imgpaths_local;
  let imgpaths_local := path_join annotation_folder <$> imgpaths_local in
  Ok (acc.1 ++ imgpaths_local, acc.2 ++ labels_local).

Definition read_imagepaths_and_labels (annotation_path : string)
  : result (list string * list string) :=
  for_each read_annotation_file ([], []) (split_on "," annotation_path).

End Annotations.

(** The first whitespace token of an annotation line. *)
Definition first_token (line : string) : string :=
  default EmptyString (head (split_ws (strip line))).

(** The sample of a line, in the words of the specification: the path is
    the first token joined with the directory of the annotation file, the
    label the second field of the first token split on ["_"]. *)
Definition sample_path (annpath line : string) : string :=
  path_join (dirname annpath) (first_token line).

Definition sample_label (line : string) : string :=
  default EmptyString (split_on "_" (first_token line) !! 1%nat).

(** An annotation file in the MjSynth format: at least one line, every line
    with the same number of tokens and at least one, every first token with
    a ["_"] in it and no NUL at its end. *)
Definition mjsynth_line (line : string) : bool :=
  let token := first_token line in
  negb (length (split_ws (strip line)) =? 0)%nat
  && contains "_" token && String.eqb (np_item token) token.

Definition mjsynth_file (lines : list string) : bool :=
  match lines with
  | [] => false
  | line :: lines' =>
      forallb mjsynth_line lines
      && forallb
           (fun line' =>
              (length (split_ws (strip line')) =? length (split_ws (strip line)))%nat)
           lines'
  end.

(** The lines of an annotation file that can be read. *)
Definition file_lines (readlines : string -> result (list string)) (annpath : string)
  : list string :=
  match readlines annpath with
  | Ok lines => lines
  | Raise _ => []
  end.

Definition mjsynth_files (readlines : string -> result (list string))
    (annotation_path : string) : bool :=
  forallb
    (fun annpath => is_ok (readlines annpath) && mjsynth_file (file_lines readlines annpath))
    (split_on "," annotation_path).

(** ** The dataset pipeline *)

(** A [tf.data.Dataset] in eager iteration is the list of its elements; an
    element whose production fails is a [Raise] in a list of [result]s.
    The image primitives ([tf.io.read_file], [tf.io.decode_jpeg],
    [tf.image.convert_image_dtype], [tf.image.resize]) are one function
    [load_image] from the height, the width and the file name to an image
    or an error; the order in which [Dataset.shuffle] yields the elements
    in the pass of number [pass] is [shuffle_order pass], the dataset being
    shuffled again for every pass. *)
Section Pipeline.
Context {Image : Type}.
Variable load_image : Z -> Z -> string -> result Image.
Variable shuffle_order : nat -> list (string * string) -> list (string * string).

Definition _decode_and_resize (image_height image_width : Z)
    (filename label : string) : result (Image * string) :=
  image ← load_image image_height image_width filename;
  Ok (image, label).

(** [tf.data.experimental.ignore_errors()]: the elements that raise are
    left out. *)
Definition ignore_errors {A : Type} (dataset : list (result A)) : list A :=
  omap (fun r => match r with Ok a => Some a | Raise _ => None end) dataset.

(** [Dataset.batch(batch_size)]: consecutive elements are collected until
    there are [batch_size] of them; what is left at the end is a last,
    smaller batch. *)
Fixpoint batch_from {A : Type} (batch_size : nat) (current : list A)
    (dataset : list A) : list (list A) :=
  match dataset with
  | [] => match current with [] => [] | _ => [current] end
  | x :: dataset' =>
      let current := current ++ [x] in
      if (length current =? batch_size)%nat
      then current :: batch_from batch_size [] dataset'
      else batch_from batch_size current dataset'
  end.

Definition batch {A : Type} (batch_size : nat) (dataset : list A) : list (list A) :=
  batch_from batch_size [] dataset.

(** Lines 32-40 of [__init__], iterated once: the batches of the pass of
    number [pass]. A batch of samples is the pair of the vector of its
    images and the vector of its labels. *)
Definition one_pass (table : StaticHashTable) (image_height image_width : Z)
    (imgpaths labels : list string) (batch_size : nat) (shuffle : bool)
    (pass : nat) : list (list Image * SparseTensor) :=
  let dataset := zip imgpaths labels in
  let dataset := if shuffle then shuffle_order pass dataset else dataset in
  let dataset :=
    (fun s => _decode_and_resize image_height image_width s.1 s.2) <$> dataset in
  let dataset := ignore_errors dataset in
  let dataset := batch batch_size dataset in
  (fun b => _convert_label table (fst <$> b) (snd <$> b)) <$> dataset.

(** Lines 32-41 of [__init__]: the dataset is refused when there are not as
    many labels as paths ([from_tensor_slices]) or when [batch_size] is not
    above 0 ([batch]); else it is its passes one after the other, [repeat]
    of them. The endless dataset of [repeat=-1] is not a list and is not
    modelled. *)
Definition make_dataset (table : StaticHashTable) (image_height image_width : Z)
    (imgpaths labels : list string) (batch_size : Z) (shuffle : bool)
    (repeat : nat) : result (list (list Image * SparseTensor)) :=
  if negb (length imgpaths =? length labels)%nat then Raise ValueError
  else if batch_size <=? 0 then Raise InvalidArgumentError
  else
    Ok (concat (one_pass table image_height image_width imgpaths labels
                  (Z.to_nat batch_size) shuffle
                <$> seq 0 repeat)).
End Pipeline.

(** ** The loader *)

Record OCRDataLoader (Image : Type) : Type := mkOCRDataLoader {
  batch_size : Z;
  image_width : Z;
  image_height : Z;
  size : nat;
  table : StaticHashTable;
  dataset : list (list Image * SparseTensor)
}.
Arguments mkOCRDataLoader {Image}.
Arguments size {Image}.
Arguments dataset {Image}.

(** [__init__]. [table_lines path] is what the text file initializer reads
    from the table file: its lines, without their ends. *)
Definition __init__ {Image : Type} (object_arrays : bool)
    (readlines table_lines : string -> result (list string))
    (load_image : Z -> Z -> string -> result Image)
    (shuffle_order : nat -> list (string * string) -> list (string * string))
    (annotation_paths : string) (image_height image_width : Z) (table_path : string)
    (blank_index batch_size : Z) (shuffle : bool) (repeat : nat)
  : result (OCRDataLoader Image) :=
  samples ← read_imagepaths_and_labels object_arrays readlines annotation_paths;
  let imgpaths := samples.1 in
  let labels := samples.2 in
  lines ← table_lines table_path;
  table ← make_table lines blank_index;
  dataset ← make_dataset load_image shuffle_order table image_height image_width
              imgpaths labels batch_size shuffle repeat;
  Ok (mkOCRDataLoader batch_size image_width image_height (length imgpaths)
        table dataset).

(** [__call__] and [__len__] *)
Definition __call__ {Image : Type} (self : OCRDataLoader Image)
  : list (list Image * SparseTensor) := dataset self.

Definition __len__ {Image : Type} (self : OCRDataLoader Image) : nat := size self.

(** The samples whose image could be loaded, with the image, in the order
    of the samples; and the number of samples whose image could not. *)
Definition decoded_samples {Image : Type} (load_image : Z -> Z -> string -> result Image)
    (image_height image_width : Z) (imgpaths labels : list string)
  : list (Image * string) :=
  ignore_errors
    ((fun s => _decode_and_resize load_image image_height image_width s.1 s.2)
     <$> zip imgpaths labels).

Definition failed_samples {Image : Type} (load_image : Z -> Z -> string -> result Image)
    (image_height image_width : Z) (imgpaths labels : list string) : nat :=
  length (filter (fun s => is_ok (load_image image_height image_width s.1) = false)
            (zip imgpaths labels)).

(** The sizes of the batches of [n] elements. *)
Definition batch_sizes (batch_size n : nat) : list nat :=
  replicate (n / batch_size) batch_size
  ++ (if (n mod batch_size =? 0)%nat then [] else [(n mod batch_size)%nat]).

(** A row filled up to [width] entries with [fill]. *)
Definition pad_row (width : nat) (fill : Z) (row : list Z) : list Z :=
  row ++ replicate (width - length row) fill.

(** The same, as a test: the first line that holds the character is not
    line [blank_index]. *)
Definition encodableb (lines : list string) (blank : Z) (label : string) : bool :=
  forallb
    (fun c => match list_find (fun line => line = c) lines with
              | Some (i, _) => negb (Z.of_nat i =? blank)
              | None => false
              end)
    (unicode_split label).

(** ** Data of the examples *)

(** The vocabulary [{0:_, 1:a, 2:b, 3:c}]. *)
Definition abc_table : list string := ["_"; "a"; "b"; "c"].

(** Predictions with dense rows [[1,2,0],[3,0,0]] and ground truth with dense
    rows [[1,2,0],[3,3,0]], the blank 0 filling the positions not stored. *)
Definition predicted_batch : SparseTensor :=
  mkSparseTensor [(0, 0); (0, 1); (1, 0)] [1; 2; 3] (2, 3) tf_int64.

Definition truth_batch : SparseTensor :=
  mkSparseTensor [(0, 0); (0, 1); (1, 0); (1, 1)] [1; 2; 3; 3] (2, 3) tf_int32.

(** Three predicted rows, [[1,2],[3,0],[2,2]]. *)
Definition three_row_batch : SparseTensor :=
  mkSparseTensor [(0, 0); (0, 1); (1, 0); (2, 0); (2, 1)] [1; 2; 3; 2; 2] (3, 2)
    tf_int64.

(** The lookup table of the file of lines [a], [b], [c] with
    [blank_index=7]. *)
Definition abc_lookup_7 : StaticHashTable :=
  mkStaticHashTable (<["c" := 2]> (<["b" := 1]> {["a" := 0]})) 7.

(** The lookup table of the file whose lines are [abc_table]. *)
Definition abc_lookup : StaticHashTable :=
  mkStaticHashTable (<["c" := 3]> (<["b" := 2]> (<["a" := 1]> {["_" := 0]}))) 0.

Definition newline : string := String "010" EmptyString.

(** Three annotation files: two in the MjSynth format, one with an empty
    line between two samples. *)
Definition annotation_files (path : string) : result (list string) :=
  if String.eqb path "data/train.txt" then
    Ok ["1/2/373_coley_14845.jpg 14845" +:+ newline;
        "1/2/372_steered_74435.jpg 74435" +:+ newline]
  else if String.eqb path "val.txt" then
    Ok ["9_coley_1.jpg 14845" +:+ newline]
  else if String.eqb path "gap.txt" then
    Ok ["1_hello_0.jpg 0" +:+ newline; newline; "2_world_1.jpg 1" +:+ newline]
  else Raise FileNotFoundError.

(** Five samples, the image of the one at index 3 not decodable. An image
    is stood for by the name of its file. *)
Definition five_paths : list string :=
  ["img/0_ab_0.jpg"; "img/1_c_0.jpg"; "img/2_ba_0.jpg"; "img/3_bad_0.jpg";
   "img/4_cab_0.jpg"].

Definition five_labels : list string := ["ab"; "c"; "ba"; "bad"; "cab"].

Definition load_five (image_height image_width : Z) (filename : string)
  : result string :=
  if String.eqb filename "img/3_bad_0.jpg" then Raise InvalidArgumentError
  else Ok filename.

(** ** Further definitions *)

(** A line without the ids that [merge_repeated=True] skips: an id equal to
    the id before it is left out, [previous] being the id before the first
    one. *)
Fixpoint collapse_repeats (previous : Z) (line : list Z) : list Z :=
  match line with
  | [] => []
  | char_index :: line' =>
      if char_index =? previous then collapse_repeats previous line'
      else char_index :: collapse_repeats char_index line'
  end.

(** The characters of a label that are on a line of the table other than
    line [blank]: what is left of the label after encoding and decoding. *)
Fixpoint decodable_part (lines : list string) (blank : Z) (label : string) : string :=
  match label with
  | EmptyString => EmptyString
  | String c rest =>
      if encodableb lines blank (String c EmptyString)
      then String c (decodable_part lines blank rest)
      else decodable_part lines blank rest
  end.

(** An annotation file in the other format the source names,
    [XX.jpg label]. *)
Definition example_format_files (path : string) : result (list string) :=
  if String.eqb path "words.txt" then
    Ok ["1.jpg hello" +:+ newline; "2.jpg world" +:+ newline]
  else Raise FileNotFoundError.

(** A loader of images that cannot read the one image of [val.txt], and the
    loader built with it from the two annotation files, for two passes. *)
Definition load_val (image_height image_width : Z) (filename : string)
  : result string :=
  if String.eqb filename "9_coley_1.jpg" then Raise InvalidArgumentError
  else Ok filename.

Definition two_pass_loader : OCRDataLoader string :=
  match __init__ false annotation_files (fun _ => Ok abc_table) load_val (fun _ => id)
          "data/train.txt,val.txt" 32 100 "table.txt" 0 2 false 2 with
  | Ok loader => loader
  | Raise _ => mkOCRDataLoader 0 0 0 0 (mkStaticHashTable ∅ 0) []
  end.

(** An annotation file with a NUL character at the end of the name of its
    image. *)
Definition nul_files (path : string) : result (list string) :=
  if String.eqb path "a/b/nul.txt" then
    Ok ["x_ab" +:+ String "000" EmptyString +:+ " 0" +:+ newline]
  else Raise FileNotFoundError.

(** The lines of a file all have as many tokens as the first: the rows that
    [np.array] gets have one length. *)
Definition same_width (lines : list string) : bool :=
  match lines with
  | [] => true
  | line :: lines' =>
      forallb
        (fun line' =>
           (length (split_ws (strip line')) =? length (split_ws (strip line)))%nat)
        lines'
  end.
(** * Properties *)

Example map_to_chars_ex1 :
  map_to_chars [[1; 2; 0]; [3; 3; 0]] ["_"; "a"; "b"; "c"] 0 false = Ok ["ab"; "cc"].
Proof. reflexivity. Qed.

Example map_to_chars_ex2 :
  map_to_chars [[1; 1; 0; 1]; [3; 3; 0]] ["_"; "a"; "b"; "c"] 0 true = Ok ["aa"; "c"].
Proof. reflexivity. Qed.

Example map_to_chars_ex3 :
  map_to_chars [[1; 7]] ["_"; "a"; "b"; "c"] 0 false = Raise IndexError.
Proof. reflexivity. Qed.

Example map_to_chars_ex4 :
  map_to_chars [[-1; 2]] ["_"; "a"; "b"; "c"] 0 false = Ok ["cb"].
Proof. reflexivity. Qed.

(** *** Equations of the loops *)

Lemma bind_ok {A B : Type} (a : A) (f : A -> result B) : (Ok a ≫= f) = f a.
Proof. done. Qed.

Lemma for_each_nil {S A : Type} (body : S -> A -> result S) st :
  for_each body st [] = Ok st.
Proof. done. Qed.

Lemma for_each_cons {S A : Type} (body : S -> A -> result S) st x (l : list A) :
  for_each body st (x :: l) = st' ← body st x; for_each body st' l.
Proof. done. Qed.

Lemma for_each_app {S A : Type} (body : S -> A -> result S) st (l1 l2 : list A) :
  for_each body st (l1 ++ l2) = st' ← for_each body st l1; for_each body st' l2.
Proof.
  revert st. induction l1 as [|x l1 IH]; intros st; simpl; [done|].
  destruct (body st x) as [st'|e]; simpl; [apply IH|done].
Qed.

Lemma append_lines_from (f : list Z -> result decode_state) acc inputs :
  for_each (fun lines line => st ← f line; Ok (lines ++ [text st])) acc inputs
  = rest ← for_each (fun lines line => st ← f line; Ok (lines ++ [text st])) [] inputs;
    Ok (acc ++ rest).
Proof.
  revert acc. induction inputs as [|line inputs IH]; intros acc; simpl.
  - by rewrite app_nil_r.
  - destruct (f line) as [st|e]; simpl; [|done].
    rewrite (IH (acc ++ [text st])), (IH [text st]).
    destruct (for_each _ [] inputs) as [rest|e]; simpl; [|done].
    by rewrite <- app_assoc.
Qed.

Lemma map_to_chars_nil table blank merge :
  map_to_chars [] table blank merge = Ok [].
Proof. done. Qed.

Lemma map_to_chars_cons line inputs table blank merge :
  map_to_chars (line :: inputs) table blank merge
  = t ← decode_text table blank merge line;
    ts ← map_to_chars inputs table blank merge;
    Ok (t :: ts).
Proof.
  unfold map_to_chars, decode_text; simpl.
  destruct (decode_line table blank merge line) as [st|e]; simpl; [|done].
  by rewrite append_lines_from.
Qed.

Lemma map_to_chars_length inputs table blank merge texts :
  map_to_chars inputs table blank merge = Ok texts -> length texts = length inputs.
Proof.
  revert texts. induction inputs as [|line inputs IH]; intros texts.
  - rewrite map_to_chars_nil. by intros [= <-].
  - rewrite map_to_chars_cons.
    destruct (decode_text table blank merge line) as [t|e]; simpl; [|done].
    destruct (map_to_chars inputs table blank merge) as [ts|e]; simpl; [|done].
    intros [= <-]; simpl. f_equal. by apply IH.
Qed.

(** *** Indexing *)

Lemma getitem_nonneg {A : Type} (l : list A) (i : Z) (x : A) :
  0 <= i -> l !! Z.to_nat i = Some x -> getitem l i = Ok x.
Proof.
  intros Hi Hx. unfold getitem.
  assert (i < Z.of_nat (length l)) by (apply lookup_lt_Some in Hx; lia).
  destruct (Z.ltb_spec i 0); [lia|].
  destruct (Z.leb_spec 0 i); [|lia].
  destruct (Z.ltb_spec i (Z.of_nat (length l))); [|lia].
  simpl. by rewrite Hx.
Qed.

Lemma getitem_ok_iff {A : Type} (l : list A) (i : Z) :
  is_ok (getitem l i) = true <-> valid_index l i.
Proof.
  unfold getitem, valid_index.
  destruct (Z.ltb_spec i 0).
  - destruct (Z.leb_spec 0 (i + Z.of_nat (length l)));
      destruct (Z.ltb_spec (i + Z.of_nat (length l)) (Z.of_nat (length l)));
      simpl; try (split; [done|lia]).
    destruct (lookup_lt_is_Some_2 l (Z.to_nat (i + Z.of_nat (length l)))) as [x ->];
      [lia|]. simpl. split; [lia|done].
  - destruct (Z.leb_spec 0 i); [|lia].
    destruct (Z.ltb_spec i (Z.of_nat (length l))); simpl; [|split; [done|lia]].
    destruct (lookup_lt_is_Some_2 l (Z.to_nat i)) as [x ->]; [lia|].
    simpl. split; [lia|done].
Qed.

Lemma getitem_raises {A : Type} (l : list A) (i : Z) e :
  getitem l i = Raise e -> e = IndexError.
Proof.
  unfold getitem.
  destruct (_ && _); [|by intros [= <-]].
  destruct (l !! _); [done|by intros [= <-]].
Qed.

Lemma valid_indexb_spec {A : Type} (l : list A) (i : Z) :
  valid_indexb l i = true <-> valid_index l i.
Proof. unfold valid_indexb, valid_index. rewrite andb_true_iff. lia. Qed.

Lemma getitem_is_ok {A : Type} (l : list A) (i : Z) :
  is_ok (getitem l i) = valid_indexb l i.
Proof.
  apply eq_true_iff_eq. rewrite getitem_ok_iff. symmetry. apply valid_indexb_spec.
Qed.

(** *** One step of the inner loop *)

Lemma char_step_blank table blank merge st :
  text <$> char_step table blank merge st blank = Ok (text st).
Proof.
  unfold char_step.
  destruct (merge && (blank =? previous_char st)); [done|].
  by rewrite Z.eqb_refl.
Qed.

Lemma char_step_emit table blank merge st a c :
  a <> blank -> (merge = true -> a <> previous_char st) -> getitem table a = Ok c ->
  char_step table blank merge st a = Ok (DecodeState (text st +:+ c) a).
Proof.
  intros Hblank Hprev Hc. unfold char_step.
  destruct merge; simpl.
  - destruct (Z.eqb_spec a (previous_char st)) as [->|_]; [by destruct Hprev|].
    destruct (Z.eqb_spec a blank); [done|]. by rewrite Hc.
  - destruct (Z.eqb_spec a blank); [done|]. by rewrite Hc.
Qed.

Lemma char_step_repeat table blank st a :
  a = previous_char st -> char_step table blank true st a = Ok st.
Proof. intros ->. unfold char_step. by rewrite Z.eqb_refl. Qed.

Lemma char_step_skip_blank table blank merge st :
  (merge = true -> blank <> previous_char st) ->
  char_step table blank merge st blank = Ok (DecodeState (text st) blank).
Proof.
  intros Hprev. unfold char_step.
  destruct merge; simpl.
  - destruct (Z.eqb_spec blank (previous_char st)) as [E|_]; [by destruct Hprev|].
    by rewrite Z.eqb_refl.
  - by rewrite Z.eqb_refl.
Qed.

Lemma char_step_raises table blank merge st a e :
  char_step table blank merge st a = Raise e -> e = IndexError.
Proof.
  unfold char_step.
  destruct (merge && _); [done|].
  destruct (a =? blank); [done|].
  destruct (getitem table a) as [c|e'] eqn:E; [done|].
  intros [= <-]. by apply getitem_raises in E.
Qed.

Lemma char_step_is_ok table blank merge st a :
  a = blank \/ valid_index table a ->
  is_ok (char_step table blank merge st a) = true.
Proof.
  intros Ha. unfold char_step.
  destruct (merge && _); [done|].
  destruct (Z.eqb_spec a blank); [done|].
  destruct Ha as [?|Ha]; [done|].
  apply getitem_ok_iff in Ha. by destruct (getitem table a).
Qed.

(** With [merge_repeated=False] a step never looks at [previous_char]. *)
Lemma char_step_plain table blank st a :
  char_step table blank false st a =
    if a =? blank then Ok (DecodeState (text st) a)
    else c ← getitem table a; Ok (DecodeState (text st +:+ c) a).
Proof. done. Qed.

(** ** C2: merging of repeated ids *)

(** The general form: [a] is neither the blank nor the start value of
    [previous_char], and [table[a]] is [c]. *)
Lemma merge_repeated_runs table blank a c :
  a <> blank -> a <> -1 -> getitem table a = Ok c ->
  decode_line table blank true [a; a; a] = Ok (DecodeState c a) /\
  decode_line table blank true [a; blank] = Ok (DecodeState c blank) /\
  decode_line table blank true [a; blank; a] = Ok (DecodeState (c +:+ c) a) /\
  decode_line table blank true [a; a; blank; a] = Ok (DecodeState (c +:+ c) a).
Proof.
  intros Hblank Hstart Hc.
  assert (Hfirst : char_step table blank true line_start a = Ok (DecodeState c a)).
  { rewrite (char_step_emit _ _ _ _ a c); try done. }
  assert (Hrep : char_step table blank true (DecodeState c a) a = Ok (DecodeState c a)).
  { by apply char_step_repeat. }
  assert (Hbl : char_step table blank true (DecodeState c a) blank
                = Ok (DecodeState c blank)).
  { apply char_step_skip_blank. simpl. congruence. }
  assert (Hagain : char_step table blank true (DecodeState c blank) a
                   = Ok (DecodeState (c +:+ c) a)).
  { apply char_step_emit; simpl; done. }
  unfold decode_line.
  repeat split;
    repeat (rewrite for_each_cons;
            first [rewrite Hfirst | rewrite Hrep | rewrite Hbl | rewrite Hagain];
            rewrite bind_ok);
    apply for_each_nil.
Qed.

(** C2. With [merge_repeated=True] and [a] an id of the vocabulary other than
    the blank: [[a,a,a]] decodes to the one character [table[a]]; after
    [[a, blank]] the tracked previous id is the blank; so [[a,a,blank,a]]
    and [[a,blank,a]] decode to the same text, two characters. *)
Theorem merge_repeated_collapse table blank a c :
  a <> blank -> 0 <= a -> table !! Z.to_nat a = Some c ->
  map_to_chars [[a; a; a]] table blank true = Ok [c] /\
  previous_char <$> decode_line table blank true [a; blank] = Ok blank /\
  map_to_chars [[a; a; blank; a]] table blank true = Ok [c +:+ c] /\
  map_to_chars [[a; blank; a]] table blank true = Ok [c +:+ c].
Proof.
  intros Hblank Ha Hc.
  destruct (merge_repeated_runs table blank a c) as (H3 & H2 & H3b & H4);
    [done|lia|by apply getitem_nonneg|].
  rewrite !map_to_chars_cons, !map_to_chars_nil. unfold decode_text.
  by rewrite H3, H2, H3b, H4.
Qed.

Lemma merge_repeated_collapse_witness :
  map_to_chars [[5; 5; 5]] ["_"; "a"; "b"; "c"; "d"; "e"] 0 true = Ok ["e"] /\
  previous_char <$> decode_line ["_"; "a"; "b"; "c"; "d"; "e"] 0 true [5; 0] = Ok 0 /\
  map_to_chars [[5; 5; 0; 5]] ["_"; "a"; "b"; "c"; "d"; "e"] 0 true = Ok ["ee"] /\
  map_to_chars [[5; 0; 5]] ["_"; "a"; "b"; "c"; "d"; "e"] 0 true = Ok ["ee"].
Proof.
  apply (merge_repeated_collapse ["_"; "a"; "b"; "c"; "d"; "e"] 0 5 "e");
    [lia | lia | reflexivity].
Defined.

(** ** C9: the start value of [previous_char] *)

(** C9. [previous_char] starts at -1, so with [merge_repeated=True] a line
    that begins with the id -1 has that id skipped as a repeat, the state
    left as it was: the line decodes as if the -1 were not there. *)
Theorem sentinel_collision table blank line inputs :
  previous_char line_start = -1 /\
  char_step table blank true line_start (-1) = Ok line_start /\
  decode_line table blank true (-1 :: line) = decode_line table blank true line /\
  map_to_chars ((-1 :: line) :: inputs) table blank true
  = map_to_chars (line :: inputs) table blank true.
Proof.
  assert (Hstep : char_step table blank true line_start (-1) = Ok line_start) by done.
  assert (Hline : decode_line table blank true (-1 :: line)
                  = decode_line table blank true line).
  { unfold decode_line. by rewrite for_each_cons, Hstep, bind_ok. }
  split; [done|]. split; [exact Hstep|]. split; [exact Hline|].
  rewrite !map_to_chars_cons. unfold decode_text. by rewrite Hline.
Qed.

(** ** C4: blanks emit nothing *)

Lemma take_S_lookup {A : Type} (l : list A) (i : nat) (x : A) :
  l !! i = Some x -> take (S i) l = take i l ++ [x].
Proof. intros H. by rewrite (take_S_r _ _ x). Qed.

(** C4. At a position that holds the blank id, the text is after the
    position what it was before it, whatever [merge_repeated] is. *)
Theorem blank_never_emitted table blank merge (line : list Z) (i : nat) :
  line !! i = Some blank ->
  text <$> decode_line table blank merge (take (S i) line)
  = text <$> decode_line table blank merge (take i line).
Proof.
  intros Hi. rewrite (take_S_lookup _ _ _ Hi).
  unfold decode_line. rewrite for_each_app.
  destruct (for_each _ line_start (take i line)) as [st|e]; simpl; [|done].
  pose proof (char_step_blank table blank merge st) as Hb.
  by destruct (char_step table blank merge st blank).
Qed.

Lemma blank_never_emitted_witness :
  text <$> decode_line ["_"; "a"; "b"] 0 true (take 3 [1; 1; 0; 1])
  = text <$> decode_line ["_"; "a"; "b"] 0 true (take 2 [1; 1; 0; 1]).
Proof.
  apply (blank_never_emitted ["_"; "a"; "b"] 0 true [1; 1; 0; 1] 2). reflexivity.
Defined.

(** ** C3: ids outside the table *)

Lemma char_step_plain_is_ok table blank st a :
  is_ok (char_step table blank false st a) = id_ok table blank a.
Proof.
  rewrite char_step_plain. unfold id_ok.
  destruct (a =? blank); [done|]. simpl.
  rewrite <- getitem_is_ok. by destruct (getitem table a).
Qed.

Lemma for_each_plain_is_ok table blank st line :
  is_ok (for_each (char_step table blank false) st line)
  = forallb (id_ok table blank) line.
Proof.
  revert st. induction line as [|a line IH]; intros st; [done|].
  rewrite for_each_cons. simpl forallb.
  rewrite <- (char_step_plain_is_ok table blank st a).
  destruct (char_step table blank false st a) as [st'|e]; [|done].
  rewrite bind_ok. apply IH.
Qed.

Lemma for_each_ids_ok table blank merge st line :
  forallb (id_ok table blank) line = true ->
  is_ok (for_each (char_step table blank merge) st line) = true.
Proof.
  revert st. induction line as [|a line IH]; intros st; [done|].
  simpl forallb. rewrite andb_true_iff. intros [Ha Hline].
  rewrite for_each_cons.
  assert (Hok : is_ok (char_step table blank merge st a) = true).
  { apply char_step_is_ok. unfold id_ok in Ha.
    apply orb_true_iff in Ha as [Ha|Ha]; [left; lia|right].
    by apply valid_indexb_spec. }
  destruct (char_step table blank merge st a) as [st'|e]; [|done].
  rewrite bind_ok. by apply IH.
Qed.

Lemma for_each_step_raises table blank merge st line e :
  for_each (char_step table blank merge) st line = Raise e -> e = IndexError.
Proof.
  revert st. induction line as [|a line IH]; intros st; [done|].
  rewrite for_each_cons.
  destruct (char_step table blank merge st a) as [st'|e'] eqn:E.
  - rewrite bind_ok. apply IH.
  - intros [= <-]. by apply char_step_raises in E.
Qed.

Lemma map_to_chars_raises inputs table blank merge e :
  map_to_chars inputs table blank merge = Raise e -> e = IndexError.
Proof.
  induction inputs as [|line inputs IH]; [done|].
  rewrite map_to_chars_cons. unfold decode_text, decode_line.
  destruct (for_each _ line_start line) as [st|e'] eqn:E; simpl.
  - destruct (map_to_chars inputs table blank merge) as [ts|e'']; simpl; [done|].
    intros [= <-]. by apply IH.
  - intros [= <-]. by apply for_each_step_raises in E.
Qed.

Lemma map_to_chars_plain_is_ok inputs table blank :
  is_ok (map_to_chars inputs table blank false)
  = forallb (forallb (id_ok table blank)) inputs.
Proof.
  induction inputs as [|line inputs IH]; [done|].
  rewrite map_to_chars_cons. simpl forallb. rewrite <- IH.
  rewrite <- (for_each_plain_is_ok table blank line_start line).
  unfold decode_text, decode_line.
  destruct (for_each _ line_start line) as [st|e]; simpl; [|done].
  by destruct (map_to_chars inputs table blank false).
Qed.

Lemma map_to_chars_ids_ok inputs table blank merge :
  forallb (forallb (id_ok table blank)) inputs = true ->
  is_ok (map_to_chars inputs table blank merge) = true.
Proof.
  induction inputs as [|line inputs IH]; [done|].
  simpl forallb. rewrite andb_true_iff. intros [Hline Hrest].
  rewrite map_to_chars_cons. unfold decode_text, decode_line.
  pose proof (for_each_ids_ok table blank merge line_start line Hline) as H1.
  destruct (for_each _ line_start line) as [st|e]; simpl; [|done].
  specialize (IH Hrest).
  by destruct (map_to_chars inputs table blank merge).
Qed.

(** C3, as stated, fails: the id 7 is out of range of a table of four
    entries, and decoding raises [IndexError] instead of returning the text
    ["a"] that an empty contribution would give. *)
Lemma decode_out_of_range_raises :
  map_to_chars [[1; 7]] abc_table 0 false = Raise IndexError /\
  map_to_chars [[1; 7]] abc_table 0 true = Raise IndexError /\
  map_to_chars [[1; 7]] abc_table 0 false <> Ok ["a"].
Proof. repeat split; done. Qed.

(** C3, amended. There is no fallback on the decode side: an id is looked up
    with [table[id]] unless it is the blank (or a merged repeat). With
    [merge_repeated=False], [map_to_chars] returns exactly when every id is
    the blank or an index in [-len(table), len(table)); the only exception
    it ever raises is [IndexError]; and with either flag it returns when
    every id is the blank or such an index. *)
Theorem decode_lookup_miss inputs table blank :
  is_ok (map_to_chars inputs table blank false)
  = forallb (forallb (id_ok table blank)) inputs /\
  (forall merge,
     map_to_chars inputs table blank merge = Raise IndexError \/
     exists texts, map_to_chars inputs table blank merge = Ok texts) /\
  (forall merge,
     forallb (forallb (id_ok table blank)) inputs = true ->
     is_ok (map_to_chars inputs table blank merge) = true).
Proof.
  split; [apply map_to_chars_plain_is_ok|]. split.
  - intros merge.
    destruct (map_to_chars inputs table blank merge) as [texts|e] eqn:E;
      [right; by exists texts|left].
    by rewrite (map_to_chars_raises _ _ _ _ _ E).
  - intros merge. apply map_to_chars_ids_ok.
Qed.

Lemma decode_lookup_miss_witness :
  is_ok (map_to_chars [[1; 0; -1]; [2; 2]] abc_table 0 true) = true.
Proof.
  apply (decode_lookup_miss [[1; 0; -1]; [2; 2]] abc_table 0). reflexivity.
Defined.

(** ** C5 and C10: [map_and_count] *)

Lemma map_and_count_rows sp rest Y mapper blank merge :
  map_and_count (sp :: rest) Y mapper blank merge
  = rows_p ← sparse_to_dense sp blank;
    rows_y ← sparse_to_dense Y blank;
    count_rows rows_p rows_y mapper blank merge.
Proof. done. Qed.

Lemma count_matches_from (pairs : list (string * string)) (acc : Z) :
  fold_left (fun count p => if String.eqb p.1 p.2 then count + 1 else count) pairs acc
  = acc + count_matches pairs.
Proof.
  unfold count_matches. revert acc.
  induction pairs as [|p pairs IH]; intros acc; simpl; [lia|].
  rewrite (IH (if String.eqb p.1 p.2 then acc + 1 else acc)),
    (IH (if String.eqb p.1 p.2 then 0 + 1 else 0)).
  destruct (String.eqb p.1 p.2); lia.
Qed.

Lemma count_matches_cons p (pairs : list (string * string)) :
  count_matches (p :: pairs)
  = (if String.eqb p.1 p.2 then 1 else 0) + count_matches pairs.
Proof.
  unfold count_matches at 1. simpl. rewrite count_matches_from.
  destruct (String.eqb p.1 p.2); lia.
Qed.

Lemma count_matches_bounds (pairs : list (string * string)) :
  0 <= count_matches pairs <= Z.of_nat (length pairs).
Proof.
  induction pairs as [|p pairs IH]; [done|].
  rewrite count_matches_cons. simpl length.
  destruct (String.eqb p.1 p.2); lia.
Qed.

(** The count is the number of pairs of equal strings. *)
Lemma count_matches_filter (pairs : list (string * string)) :
  count_matches pairs
  = Z.of_nat (length (filter (fun p => p.1 = p.2) pairs)).
Proof.
  induction pairs as [|p pairs IH]; [done|].
  rewrite count_matches_cons, filter_cons.
  destruct (String.eqb_spec p.1 p.2); case_decide; try done; simpl length; lia.
Qed.

Lemma map_to_chars_take inputs table blank merge texts (m : nat) :
  map_to_chars inputs table blank merge = Ok texts ->
  map_to_chars (take m inputs) table blank merge = Ok (take m texts).
Proof.
  revert texts m. induction inputs as [|line inputs IH]; intros texts m.
  - rewrite map_to_chars_nil. intros [= <-]. by rewrite !take_nil.
  - rewrite map_to_chars_cons.
    destruct (decode_text table blank merge line) as [t|e] eqn:Et; [|done].
    rewrite bind_ok.
    destruct (map_to_chars inputs table blank merge) as [ts|e] eqn:Ets; [|done].
    rewrite bind_ok. intros [= <-].
    destruct m as [|m]; [done|]. simpl take.
    by rewrite map_to_chars_cons, Et, bind_ok, (IH ts m eq_refl), bind_ok.
Qed.

Lemma convert_default_int32 (fill : Z) :
  - 2 ^ 31 <= fill < 2 ^ 31 -> convert_default tf_int32 fill = Ok fill.
Proof.
  intros Hfill. unfold convert_default.
  destruct (Z.leb_spec (- 2 ^ 63) fill); [|lia].
  destruct (Z.ltb_spec fill (2 ^ 63)); [|lia].
  cbn [andb]. unfold cast_int32. rewrite Z.mod_small by lia. f_equal. lia.
Qed.

Lemma sparse_to_dense_rows sp d rows :
  sparse_to_dense sp d = Ok rows ->
  Z.of_nat (length rows) = (dense_shape sp).1.
Proof.
  unfold sparse_to_dense.
  destruct (convert_default (dtype sp) d) as [fill|e]; [|done].
  rewrite bind_ok. unfold dense_rows.
  destruct (negb _) eqn:E; [done|]. intros [= <-].
  rewrite length_fmap, length_seqZ.
  apply negb_false_iff in E. rewrite !andb_true_iff in E.
  destruct E as [[[[_ H1] _] _] _]. lia.
Qed.

Lemma map_and_count_exact sp rest Y mapper blank merge rows_p rows_y texts_p texts_y :
  sparse_to_dense sp blank = Ok rows_p ->
  sparse_to_dense Y blank = Ok rows_y ->
  map_to_chars rows_p mapper blank merge = Ok texts_p ->
  map_to_chars rows_y mapper blank merge = Ok texts_y ->
  map_and_count (sp :: rest) Y mapper blank merge
  = Ok (Z.of_nat (length (filter (fun p => p.1 = p.2) (zip texts_p texts_y)))).
Proof.
  intros Hp Hy Htp Hty.
  rewrite map_and_count_rows, Hp, bind_ok, Hy, bind_ok. unfold count_rows.
  by rewrite Htp, bind_ok, Hty, bind_ok, count_matches_filter.
Qed.

(** C5. [map_and_count] makes both batches dense with the blank as fill,
    decodes every row and counts the positions at which the two decoded
    strings are equal. In the example the dense rows are those of the claim,
    the predictions decode to ["ab"] and ["c"], the truth to ["ab"] and
    ["cc"], and one row matches. *)
Theorem score_example :
  (forall sp rest Y mapper blank merge rows_p rows_y texts_p texts_y,
     sparse_to_dense sp blank = Ok rows_p ->
     sparse_to_dense Y blank = Ok rows_y ->
     map_to_chars rows_p mapper blank merge = Ok texts_p ->
     map_to_chars rows_y mapper blank merge = Ok texts_y ->
     map_and_count (sp :: rest) Y mapper blank merge
     = Ok (Z.of_nat (length (filter (fun p => p.1 = p.2) (zip texts_p texts_y))))) /\
  sparse_to_dense predicted_batch 0 = Ok [[1; 2; 0]; [3; 0; 0]] /\
  sparse_to_dense truth_batch 0 = Ok [[1; 2; 0]; [3; 3; 0]] /\
  map_to_chars [[1; 2; 0]; [3; 0; 0]] abc_table 0 false = Ok ["ab"; "c"] /\
  map_to_chars [[1; 2; 0]; [3; 3; 0]] abc_table 0 false = Ok ["ab"; "cc"] /\
  map_and_count [predicted_batch] truth_batch abc_table 0 false = Ok 1.
Proof.
  split; [apply map_and_count_exact|].
  repeat split; vm_compute; reflexivity.
Qed.

Lemma score_example_witness :
  map_and_count [predicted_batch] truth_batch abc_table 0 false
  = Ok (Z.of_nat (length (filter (fun p : string * string => p.1 = p.2)
                            (zip ["ab"; "c"] ["ab"; "cc"])))).
Proof.
  apply (proj1 score_example predicted_batch [] truth_batch abc_table 0 false
           [[1; 2; 0]; [3; 0; 0]] [[1; 2; 0]; [3; 3; 0]]); reflexivity.
Defined.

Lemma count_rows_truncates decoded Y mapper blank merge n :
  count_rows decoded Y mapper blank merge = Ok n ->
  0 <= n <= Z.of_nat (min (length decoded) (length Y)) /\
  count_rows (take (min (length decoded) (length Y)) decoded)
             (take (min (length decoded) (length Y)) Y) mapper blank merge = Ok n.
Proof.
  unfold count_rows.
  destruct (map_to_chars decoded mapper blank merge) as [tp|e] eqn:Ep; [|done].
  rewrite bind_ok.
  destruct (map_to_chars Y mapper blank merge) as [ty|e] eqn:Ey; [|done].
  rewrite bind_ok. intros [= <-].
  pose proof (map_to_chars_length _ _ _ _ _ Ep) as Lp.
  pose proof (map_to_chars_length _ _ _ _ _ Ey) as Ly.
  split.
  - pose proof (count_matches_bounds (zip tp ty)) as Hb.
    rewrite length_zip_with in Hb. lia.
  - rewrite (map_to_chars_take _ _ _ _ _ _ Ep), bind_ok,
      (map_to_chars_take _ _ _ _ _ _ Ey), bind_ok.
    rewrite zip_with_take_both'; [done|lia|lia].
Qed.

Lemma count_rows_returns decoded Y mapper blank merge :
  forallb (forallb (id_ok mapper blank)) decoded = true ->
  forallb (forallb (id_ok mapper blank)) Y = true ->
  is_ok (count_rows decoded Y mapper blank merge) = true.
Proof.
  intros Hp Hy. unfold count_rows.
  apply (map_to_chars_ids_ok _ _ _ merge) in Hp, Hy.
  destruct (map_to_chars decoded mapper blank merge); [|done].
  by destruct (map_to_chars Y mapper blank merge).
Qed.

(** C10. [zip] pairs the decoded rows by position and stops at the shorter
    side. When the two batches are dense with rows [rows_p] and [rows_y]
    whose ids the decoder accepts, [map_and_count] returns a count; any count
    it returns lies between 0 and the smaller number of rows (the smaller
    first dimension of the two batches), and is the count of the first that
    many rows of each side alone. *)
Theorem score_truncates sp rest Y mapper blank merge rows_p rows_y :
  sparse_to_dense sp blank = Ok rows_p ->
  sparse_to_dense Y blank = Ok rows_y ->
  let m := min (length rows_p) (length rows_y) in
  Z.of_nat m = Z.min (dense_shape sp).1 (dense_shape Y).1 /\
  (forallb (forallb (id_ok mapper blank)) rows_p = true ->
   forallb (forallb (id_ok mapper blank)) rows_y = true ->
   is_ok (map_and_count (sp :: rest) Y mapper blank merge) = true) /\
  (forall n,
     map_and_count (sp :: rest) Y mapper blank merge = Ok n ->
     0 <= n <= Z.of_nat m /\
     count_rows (take m rows_p) (take m rows_y) mapper blank merge = Ok n).
Proof.
  intros Hp Hy m.
  pose proof (sparse_to_dense_rows _ _ _ Hp) as Lp.
  pose proof (sparse_to_dense_rows _ _ _ Hy) as Ly.
  rewrite map_and_count_rows, Hp, bind_ok, Hy, bind_ok.
  split; [unfold m; lia|]. split.
  - apply count_rows_returns.
  - intros n Hn. by apply count_rows_truncates.
Qed.

(** Three predicted rows against two rows of ground truth: the third
    prediction is not compared. *)
Lemma score_truncates_witness :
  let m := min (length [[1; 2]; [3; 0]; [2; 2]]) (length [[1; 2; 0]; [3; 3; 0]]) in
  Z.of_nat m = Z.min 3 2 /\
  (forallb (forallb (id_ok abc_table 0)) [[1; 2]; [3; 0]; [2; 2]] = true ->
   forallb (forallb (id_ok abc_table 0)) [[1; 2; 0]; [3; 3; 0]] = true ->
   is_ok (map_and_count [three_row_batch] truth_batch abc_table 0 false) = true) /\
  (forall n,
     map_and_count [three_row_batch] truth_batch abc_table 0 false = Ok n ->
     0 <= n <= Z.of_nat m /\
     count_rows (take m [[1; 2]; [3; 0]; [2; 2]]) (take m [[1; 2; 0]; [3; 3; 0]])
       abc_table 0 false = Ok n).
Proof.
  apply (score_truncates three_row_batch [] truth_batch abc_table 0 false
           [[1; 2]; [3; 0]; [2; 2]] [[1; 2; 0]; [3; 3; 0]]); reflexivity.
Defined.

(** A third predicted row that cannot be decoded makes the call raise, though
    no ground truth is paired with it: every row is decoded before [zip]. *)
Example unpaired_row_is_decoded :
  map_and_count [mkSparseTensor [(0, 0); (1, 0); (2, 0)] [1; 3; 9] (3, 1) tf_int64]
    truth_batch abc_table 0 false = Raise IndexError.
Proof. reflexivity. Qed.

(** ** C8: the vocabulary table *)

Lemma insert_lines_fresh lines k (m : gmap string Z) :
  NoDup lines -> EmptyString ∉ lines ->
  (forall key, key ∈ lines -> m !! key = None) ->
  exists m', insert_lines lines k m = Ok m' /\
    (forall (i : nat) c, lines !! i = Some c -> m' !! c = Some (k + Z.of_nat i)) /\
    (forall c, c ∉ lines -> m' !! c = m !! c).
Proof.
  revert k m. induction lines as [|key lines IH]; intros k m Hnd Hne Hfresh.
  - exists m. split; [done|]. split; [|done].
    intros i c Hi. by rewrite lookup_nil in Hi.
  - apply NoDup_cons in Hnd as [Hkey Hnd].
    apply not_elem_of_cons in Hne as [Hne0 Hne].
    cbn [insert_lines].
    destruct (String.eqb_spec key EmptyString) as [E|_]; [by subst|].
    rewrite (Hfresh key) by (by left).
    destruct (IH (k + 1) (<[key:=k]> m) Hnd Hne) as (m' & -> & Hin & Hout).
    { intros key' Hin. rewrite lookup_insert_ne by (intros ->; done).
      apply Hfresh. by right. }
    exists m'. split; [done|]. split.
    + intros [|i] c Hi; simpl in Hi.
      * injection Hi as <-. rewrite (Hout key Hkey), lookup_insert_eq.
        f_equal. lia.
      * rewrite (Hin i c Hi). f_equal. lia.
    + intros c Hc. apply not_elem_of_cons in Hc as [Hck Hc].
      rewrite (Hout c Hc). by rewrite lookup_insert_ne.
Qed.

Lemma convert_default_int64 (d : Z) :
  - 2 ^ 63 <= d < 2 ^ 63 -> convert_default tf_int64 d = Ok d.
Proof.
  intros Hd. unfold convert_default.
  destruct (Z.leb_spec (- 2 ^ 63) d); [|lia].
  destruct (Z.ltb_spec d (2 ^ 63)); [|lia]. done.
Qed.

Lemma convert_default_int64_ok (d d' : Z) :
  convert_default tf_int64 d = Ok d' -> d' = d /\ - 2 ^ 63 <= d < 2 ^ 63.
Proof.
  unfold convert_default.
  destruct (Z.leb_spec (- 2 ^ 63) d); [|done].
  destruct (Z.ltb_spec d (2 ^ 63)); [|done].
  intros [= <-]. lia.
Qed.

Lemma make_table_lookup lines blank :
  - 2 ^ 63 <= blank < 2 ^ 63 ->
  lines <> [] -> EmptyString ∉ lines -> NoDup lines ->
  exists table, make_table lines blank = Ok table /\
    (forall (i : nat) c, lines !! i = Some c -> table_lookup table c = Z.of_nat i) /\
    (forall c, c ∉ lines -> table_lookup table c = blank).
Proof.
  intros Hblank Hlines Hne Hnd.
  destruct (insert_lines_fresh lines 0 ∅ Hnd Hne) as (m & Hm & Hin & Hout);
    [intros; apply lookup_empty|].
  exists (mkStaticHashTable m blank). unfold make_table, table_lookup.
  rewrite convert_default_int64, bind_ok by done.
  destruct lines as [|line lines']; [done|].
  rewrite Hm. split; [done|]. simpl. split.
  - intros i c Hi. rewrite (Hin i c Hi). simpl. lia.
  - intros c Hc. by rewrite (Hout c Hc), lookup_empty.
Qed.

Lemma insert_lines_ok lines k (m m' : gmap string Z) :
  (forall key v, m !! key = Some v -> v < k) ->
  insert_lines lines k m = Ok m' ->
  NoDup lines /\ (EmptyString ∉ lines) /\ (forall key, key ∈ lines -> m !! key = None).
Proof.
  revert k m. induction lines as [|key lines IH]; intros k m Hlt Hm'.
  - split; [apply NoDup_nil_2|]. split; [apply not_elem_of_nil|].
    intros key Hin. by apply elem_of_nil in Hin.
  - cbn [insert_lines] in Hm'.
    destruct (String.eqb_spec key EmptyString) as [|Hkey]; [done|].
    destruct (m !! key) as [previous|] eqn:Ekey.
    { apply Hlt in Ekey. destruct (Z.eqb_spec previous k); [lia|done]. }
    apply IH in Hm' as (Hnd & Hne & Hfresh).
    2:{ intros key' v. rewrite lookup_insert.
        case_decide; [intros [= <-]; lia|]. intros Hv. apply Hlt in Hv. lia. }
    assert (Hnotin : key ∉ lines).
    { intros Hin. apply Hfresh in Hin. by rewrite lookup_insert_eq in Hin. }
    split; [by apply NoDup_cons|]. split.
    { apply not_elem_of_cons. split; [congruence|done]. }
    intros key' Hin. apply elem_of_cons in Hin as [->|Hin]; [done|].
    specialize (Hfresh key' Hin).
    rewrite lookup_insert_ne in Hfresh; [done|]. by intros ->.
Qed.

(** The files and blanks from which a table can be built. *)
Lemma make_table_built lines blank table :
  make_table lines blank = Ok table ->
  - 2 ^ 63 <= blank < 2 ^ 63 /\
  lines <> [] /\ (EmptyString ∉ lines) /\ NoDup lines.
Proof.
  unfold make_table.
  destruct (convert_default tf_int64 blank) as [d|e] eqn:Ed; [|done].
  apply convert_default_int64_ok in Ed as [-> Hblank]. rewrite bind_ok.
  destruct lines as [|line lines']; [done|].
  destruct (insert_lines (line :: lines') 0 ∅) as [m|e] eqn:E; [|done]. intros _.
  apply insert_lines_ok in E as (Hnd & Hne & _);
    [done|intros key v; by rewrite lookup_empty].
Qed.

Lemma make_table_NoDup lines blank table :
  make_table lines blank = Ok table -> NoDup lines.
Proof. intros H. by apply make_table_built in H as (_ & _ & _ & Hnd). Qed.

Lemma make_table_line lines blank table (i : nat) c :
  make_table lines blank = Ok table -> lines !! i = Some c ->
  table_lookup table c = Z.of_nat i.
Proof.
  intros Htable Hi.
  destruct (make_table_built _ _ _ Htable) as (Hblank & Hlines & Hne & Hnd).
  destruct (make_table_lookup lines blank Hblank Hlines Hne Hnd)
    as (table' & Htable' & Hin & _).
  rewrite Htable in Htable'. injection Htable' as <-. by apply Hin.
Qed.

Lemma make_table_absent lines blank table c :
  make_table lines blank = Ok table -> c ∉ lines -> table_lookup table c = blank.
Proof.
  intros Htable Hc.
  destruct (make_table_built _ _ _ Htable) as (Hblank & Hlines & Hne & Hnd).
  destruct (make_table_lookup lines blank Hblank Hlines Hne Hnd)
    as (table' & Htable' & _ & Hout).
  rewrite Htable in Htable'. injection Htable' as <-. by apply Hout.
Qed.

(** A key on two lines has two line numbers, and the table is not built;
    nor is it from a file with an empty line, or from an empty file. *)
Example make_table_repeated_line :
  make_table ["a"; "b"; "a"] 0 = Raise FailedPreconditionError.
Proof. vm_compute. reflexivity. Qed.

Example make_table_empty_line :
  make_table ["_"; ""; "a"] 0 = Raise InvalidArgumentError.
Proof. vm_compute. reflexivity. Qed.

Example make_table_empty_file : make_table [] 0 = Raise OutOfRangeError.
Proof. reflexivity. Qed.

(** C8. The table is built from the lines of a table file exactly when the
    file has a line, no empty line and no line twice (and [blank_index] is a
    64-bit integer). In the table built, a character on line [i] (counted
    from 0) looks up to [i], whatever [blank_index] is, and any string that
    is on no line looks up to [blank_index]; [lookup] is a total
    function. *)
Theorem vocabulary_lookup lines blank :
  (is_ok (make_table lines blank) = true <->
   - 2 ^ 63 <= blank < 2 ^ 63 /\
   lines <> [] /\ (EmptyString ∉ lines) /\ NoDup lines) /\
  (forall table, make_table lines blank = Ok table ->
     (forall (i : nat) c, lines !! i = Some c -> table_lookup table c = Z.of_nat i) /\
     (forall c, c ∉ lines -> table_lookup table c = blank)).
Proof.
  split.
  - split.
    + destruct (make_table lines blank) as [table|e] eqn:E; [|done].
      intros _. by apply make_table_built in E.
    + intros (Hblank & Hlines & Hne & Hnd).
      by destruct (make_table_lookup lines blank Hblank Hlines Hne Hnd)
        as (table & -> & _).
  - intros table Htable. split.
    + intros i c. by apply (make_table_line lines blank).
    + intros c. by apply (make_table_absent lines blank).
Qed.

Lemma vocabulary_lookup_witness :
  is_ok (make_table ["a"; "b"; "c"] 7) = true /\
  (forall (i : nat) c, ["a"; "b"; "c"] !! i = Some c ->
                       table_lookup abc_lookup_7 c = Z.of_nat i) /\
  (forall c, c ∉ ["a"; "b"; "c"] -> table_lookup abc_lookup_7 c = 7).
Proof.
  destruct (vocabulary_lookup ["a"; "b"; "c"] 7) as [Hbuilt Hlookup].
  split.
  - apply Hbuilt. split; [lia|]. split; [discriminate|].
    split; apply (bool_decide_unpack _); vm_compute; reflexivity.
  - apply Hlookup. vm_compute. reflexivity.
Defined.

(** ** C1: encoding and decoding a label *)

Lemma cast_int32_small (x : Z) : - 2 ^ 31 <= x < 2 ^ 31 -> cast_int32 x = x.
Proof. intros Hx. unfold cast_int32. rewrite Z.mod_small; lia. Qed.

Lemma append_cons (a : ascii) (s rest : string) :
  String a s +:+ rest = String a (s +:+ rest).
Proof. reflexivity. Qed.

Lemma append_one (s : string) (c : ascii) (rest : string) :
  (s +:+ String c EmptyString) +:+ rest = s +:+ String c rest.
Proof. induction s as [|a s IH]; [done|]. by rewrite !append_cons, IH. Qed.

Lemma append_empty (s : string) : s +:+ EmptyString = s.
Proof. induction s as [|a s IH]; [done|]. by rewrite append_cons, IH. Qed.

Lemma decode_encoded_from lines blank table st label :
  make_table lines blank = Ok table ->
  Z.of_nat (length lines) <= 2 ^ 31 ->
  encodable lines blank label ->
  text <$> for_each (char_step lines blank false) st (encode_label table label)
  = Ok (text st +:+ label).
Proof.
  intros Htable Hsize. revert st.
  induction label as [|a label IH]; intros st Hlabel.
  - simpl. by rewrite append_empty.
  - destruct (Hlabel (String a EmptyString)) as (i & Hi & Hblank); [by left|].
    assert (Hid : cast_int32 (table_lookup table (String a EmptyString)) = Z.of_nat i).
    { rewrite (make_table_line _ _ _ _ _ Htable Hi).
      apply lookup_lt_Some in Hi. apply cast_int32_small. lia. }
    unfold encode_label. simpl unicode_split. rewrite fmap_cons, Hid, for_each_cons.
    rewrite (char_step_emit lines blank false st (Z.of_nat i) (String a EmptyString));
      [|done|done|apply getitem_nonneg; [lia|by rewrite Nat2Z.id]].
    rewrite bind_ok. fold (encode_label table label).
    rewrite IH; [cbn [text]; by rewrite append_one|].
    intros c Hc. apply Hlabel. by right.
Qed.

(** *** A ragged batch made sparse and dense again *)

Lemma row_indices_length r c n : length (row_indices r c n) = n.
Proof. revert c. induction n as [|n IH]; intros c; simpl; [done|]. by rewrite IH. Qed.

Lemma ragged_indices_length r rows :
  length (ragged_indices r rows) = length (concat rows).
Proof.
  revert r. induction rows as [|row rows IH]; intros r; simpl; [done|].
  by rewrite !length_app, row_indices_length, IH.
Qed.

Lemma row_indices_elem r c n ix :
  ix ∈ row_indices r c n -> ix.1 = r /\ c <= ix.2 < c + Z.of_nat n.
Proof.
  revert c. induction n as [|n IH]; intros c; simpl.
  - intros H. by apply elem_of_nil in H.
  - intros [->|H]%elem_of_cons; simpl; [lia|].
    apply IH in H. lia.
Qed.

Lemma ragged_indices_elem r rows ix :
  ix ∈ ragged_indices r rows ->
  r <= ix.1 < r + Z.of_nat (length rows) /\
  0 <= ix.2 < Z.of_nat (max_list (length <$> rows)).
Proof.
  revert r. induction rows as [|row rows IH]; intros r.
  - intros H. by apply elem_of_nil in H.
  - change (max_list (length <$> row :: rows))
      with (Nat.max (length row) (max_list (length <$> rows))).
    pose proof (Nat.le_max_l (length row) (max_list (length <$> rows))) as Hl.
    pose proof (Nat.le_max_r (length row) (max_list (length <$> rows))) as Hr.
    simpl ragged_indices. simpl length.
    intros [H|H]%elem_of_app.
    + apply row_indices_elem in H. lia.
    + apply IH in H. lia.
Qed.

Lemma strictly_sorted_app l1 l2 :
  strictly_sorted l1 = true -> strictly_sorted l2 = true ->
  (forall a b, a ∈ l1 -> b ∈ l2 -> index_ltb a b = true) ->
  strictly_sorted (l1 ++ l2) = true.
Proof.
  intros H1 H2 Hlt. induction l1 as [|a l1 IH]; [done|].
  destruct l1 as [|a' l1].
  - destruct l2 as [|b l2]; [done|].
    change (index_ltb a b && strictly_sorted (b :: l2) = true).
    rewrite H2, andb_true_r. apply Hlt; by left.
  - simpl in H1. apply andb_true_iff in H1 as [Ha H1].
    change (index_ltb a a' && strictly_sorted ((a' :: l1) ++ l2) = true).
    rewrite Ha, IH; [done|done|].
    intros x y Hx Hy. apply Hlt; [by right|done].
Qed.

Lemma row_indices_sorted r c n : strictly_sorted (row_indices r c n) = true.
Proof.
  revert c. induction n as [|n IH]; intros c; [done|].
  destruct n as [|n]; [done|].
  change (index_ltb (r, c) (r, c + 1) && strictly_sorted (row_indices r (c + 1) (S n))
          = true).
  rewrite IH, andb_true_r. unfold index_ltb; simpl.
  rewrite Z.eqb_refl. apply orb_true_iff. right. simpl. lia.
Qed.

Lemma ragged_indices_sorted r rows : strictly_sorted (ragged_indices r rows) = true.
Proof.
  revert r. induction rows as [|row rows IH]; intros r; [done|]. simpl.
  apply strictly_sorted_app; [apply row_indices_sorted|apply IH|].
  intros a b Ha Hb. apply row_indices_elem in Ha. apply ragged_indices_elem in Hb.
  unfold index_ltb. apply orb_true_iff. left. lia.
Qed.

Lemma sparse_get_app ixs1 vals1 ixs2 vals2 ix :
  length ixs1 = length vals1 ->
  sparse_get (ixs1 ++ ixs2) (vals1 ++ vals2) ix
  = match sparse_get ixs1 vals1 ix with
    | Some v => Some v
    | None => sparse_get ixs2 vals2 ix
    end.
Proof.
  revert vals1. induction ixs1 as [|a ixs1 IH]; intros [|v vals1] Hlen;
    simpl in *; try done.
  destruct (index_eqb a ix); [done|]. apply IH. lia.
Qed.

Lemma sparse_get_absent ixs vals ix :
  (forall a, a ∈ ixs -> a <> ix) -> sparse_get ixs vals ix = None.
Proof.
  revert vals. induction ixs as [|a ixs IH]; intros [|v vals] Hne; simpl; try done.
  destruct (index_eqb a ix) eqn:E.
  - unfold index_eqb in E. apply andb_true_iff in E as [E1 E2].
    destruct (Hne a); [by left|]. destruct a, ix; simpl in *. f_equal; lia.
  - apply IH. intros a' Ha'. apply Hne. by right.
Qed.

Lemma sparse_get_cons a ixs v vals ix :
  sparse_get (a :: ixs) (v :: vals) ix
  = if index_eqb a ix then Some v else sparse_get ixs vals ix.
Proof. reflexivity. Qed.

Lemma index_eqb_pair (r c r' c' : Z) :
  index_eqb (r, c) (r', c') = (r =? r') && (c =? c').
Proof. reflexivity. Qed.

Lemma sparse_get_row r c0 (row : list Z) (j : nat) :
  sparse_get (row_indices r c0 (length row)) row (r, c0 + Z.of_nat j) = row !! j.
Proof.
  revert c0 j. induction row as [|v row IH]; intros c0 j.
  - simpl. by rewrite lookup_nil.
  - cbn [length row_indices]. rewrite sparse_get_cons, index_eqb_pair, Z.eqb_refl.
    cbn [andb]. destruct j as [|j].
    + replace (c0 + Z.of_nat 0) with c0 by lia. by rewrite Z.eqb_refl.
    + destruct (Z.eqb_spec c0 (c0 + Z.of_nat (S j))); [lia|].
      replace (c0 + Z.of_nat (S j)) with (c0 + 1 + Z.of_nat j) by lia.
      by rewrite IH.
Qed.

Lemma sparse_get_ragged r0 rows (i j : nat) :
  sparse_get (ragged_indices r0 rows) (concat rows) (r0 + Z.of_nat i, Z.of_nat j)
  = rows !! i ≫= fun row => row !! j.
Proof.
  revert r0 i. induction rows as [|row rows IH]; intros r0 i.
  - by rewrite lookup_nil.
  - cbn [ragged_indices concat].
    rewrite sparse_get_app by apply row_indices_length.
    destruct i as [|i].
    + replace (r0 + Z.of_nat 0) with r0 by lia.
      pose proof (sparse_get_row r0 0 row j) as Hrow.
      rewrite Z.add_0_l in Hrow. rewrite Hrow. cbn [lookup list_lookup mbind option_bind].
      destruct (row !! j) eqn:Ej; [done|].
      apply sparse_get_absent. intros a Ha Heq.
      apply ragged_indices_elem in Ha. rewrite Heq in Ha. simpl in Ha. lia.
    + rewrite sparse_get_absent.
      * replace (r0 + Z.of_nat (S i)) with (r0 + 1 + Z.of_nat i) by lia.
        by rewrite IH.
      * intros a Ha Heq. apply row_indices_elem in Ha. rewrite Heq in Ha.
        simpl in Ha. lia.
Qed.

Lemma ragged_indices_in_bounds rows :
  forallb (in_bounds (Z.of_nat (length rows), Z.of_nat (max_list (length <$> rows))))
    (ragged_indices 0 rows) = true.
Proof.
  apply forallb_forall. intros ix Hix%list_elem_of_In.
  apply ragged_indices_elem in Hix. unfold in_bounds; simpl.
  rewrite !andb_true_iff. lia.
Qed.

Lemma pad_row_lookup width fill row (j : nat) :
  (length row <= width)%nat -> (j < width)%nat ->
  pad_row width fill row !! j = Some (default fill (row !! j)).
Proof.
  intros Hrow Hj. unfold pad_row.
  destruct (decide (j < length row)%nat) as [Hlt|Hge].
  - rewrite lookup_app_l by done.
    destruct (lookup_lt_is_Some_2 row j Hlt) as [v ->]. done.
  - rewrite lookup_app_r by lia.
    rewrite (lookup_ge_None_2 row j) by lia.
    apply lookup_replicate_2. lia.
Qed.

Lemma pad_row_length width fill row :
  (length row <= width)%nat -> length (pad_row width fill row) = width.
Proof. intros H. unfold pad_row. rewrite length_app, length_replicate. lia. Qed.

(** The dense rows of a tensor that holds the rows [rows] in row-major
    order are these rows, the short ones padded. *)
Lemma dense_rows_ragged sp rows fill :
  indices sp = ragged_indices 0 rows ->
  values sp = concat rows ->
  dense_shape sp = (Z.of_nat (length rows), Z.of_nat (max_list (length <$> rows))) ->
  dense_rows sp fill = Ok (pad_row (max_list (length <$> rows)) fill <$> rows).
Proof.
  intros Hix Hvals Hshape.
  unfold dense_rows. rewrite Hix, Hvals, Hshape. cbn [fst snd].
  rewrite ragged_indices_length, Nat.eqb_refl, ragged_indices_in_bounds,
    ragged_indices_sorted.
  destruct (Z.leb_spec 0 (Z.of_nat (length rows))); [|lia].
  destruct (Z.leb_spec 0 (Z.of_nat (max_list (length <$> rows)))); [|lia].
  cbn [andb negb]. f_equal.
  apply list_eq. intros i. rewrite !list_lookup_fmap.
  destruct (rows !! i) as [row|] eqn:Ei.
  - rewrite lookup_seqZ_lt by (apply lookup_lt_Some in Ei; lia).
    cbn [fmap option_fmap option_map]. f_equal.
    assert (Hrow : (length row <= max_list (length <$> rows))%nat).
    { apply max_list_elem_of_le, list_elem_of_fmap. exists row.
      split; [done|]. by apply list_elem_of_lookup_2 in Ei. }
    apply list_eq. intros j. rewrite list_lookup_fmap.
    destruct (decide (j < max_list (length <$> rows))%nat) as [Hj|Hj].
    + rewrite lookup_seqZ_lt by lia. cbn [fmap option_fmap option_map].
      rewrite pad_row_lookup by done. rewrite (Z.add_0_l (Z.of_nat j)).
      by rewrite sparse_get_ragged, Ei.
    + rewrite lookup_seqZ_ge by lia.
      rewrite lookup_ge_None_2; [done|]. rewrite pad_row_length by done. lia.
  - rewrite lookup_seqZ_ge; [done|]. apply lookup_ge_None in Ei. lia.
Qed.

Lemma ragged_indices_lengths r rows rows' :
  length <$> rows = length <$> rows' -> ragged_indices r rows = ragged_indices r rows'.
Proof.
  revert r rows'. induction rows as [|row rows IH]; intros r [|row' rows'] H;
    try done.
  rewrite !fmap_cons in H. injection H as Hrow Hrows.
  simpl. by rewrite Hrow, (IH (r + 1) rows' Hrows).
Qed.

(** The sparse label of a batch holds the encoded labels, row by row, and is
    an int32 tensor. *)
Lemma convert_label_sparse {Image : Type} table (image : Image) labels :
  (_convert_label table image labels).2
  = mkSparseTensor (ragged_indices 0 (encode_label table <$> labels))
      (concat (encode_label table <$> labels))
      (Z.of_nat (length (encode_label table <$> labels)),
       Z.of_nat (max_list (length <$> (encode_label table <$> labels))))
      tf_int32.
Proof.
  unfold _convert_label, ragged_to_sparse. cbn [snd indices values dense_shape].
  assert (Hlen : length <$> (fmap (table_lookup table) <$> (unicode_split <$> labels))
                 = length <$> (encode_label table <$> labels)).
  { rewrite <- !list_fmap_compose. apply list_fmap_ext. intros i label _. simpl.
    unfold encode_label. by rewrite !length_fmap. }
  rewrite (ragged_indices_lengths _ _ _ Hlen), Hlen, !length_fmap. f_equal.
  clear Hlen. induction labels as [|label labels IH]; [done|].
  rewrite !fmap_cons. cbn [concat]. rewrite fmap_app, IH. f_equal.
  unfold encode_label. by rewrite <- list_fmap_compose.
Qed.

(** The label batch made dense, for a fill value that fits in 32 bits. *)
Lemma convert_label_dense {Image : Type} table (image : Image) labels fill :
  - 2 ^ 31 <= fill < 2 ^ 31 ->
  sparse_to_dense (_convert_label table image labels).2 fill
  = Ok (pad_row (max_list (length <$> (encode_label table <$> labels))) fill
        <$> (encode_label table <$> labels)).
Proof.
  intros Hfill. rewrite convert_label_sparse. unfold sparse_to_dense.
  cbn [dtype]. rewrite convert_default_int32, bind_ok by done.
  by apply dense_rows_ragged.
Qed.

Lemma decode_blanks table blank st (n : nat) :
  text <$> for_each (char_step table blank false) st (replicate n blank)
  = Ok (text st).
Proof.
  revert st. induction n as [|n IH]; intros st; [done|].
  cbn [replicate]. rewrite for_each_cons, char_step_plain, Z.eqb_refl, bind_ok.
  by rewrite IH.
Qed.

Lemma decode_encoded_padded lines blank table label (width : nat) :
  make_table lines blank = Ok table ->
  Z.of_nat (length lines) <= 2 ^ 31 ->
  encodable lines blank label ->
  decode_text lines blank false (pad_row width blank (encode_label table label))
  = Ok label.
Proof.
  intros Htable Hsize Hlabel.
  unfold decode_text, decode_line, pad_row. rewrite for_each_app.
  pose proof (decode_encoded_from lines blank table line_start label
                Htable Hsize Hlabel) as Henc.
  destruct (for_each _ line_start (encode_label table label)) as [st|e]; [|done].
  rewrite bind_ok, decode_blanks. simpl in Henc. by injection Henc as ->.
Qed.

Lemma decode_encoded_batch lines blank table labels (width : nat) :
  make_table lines blank = Ok table ->
  Z.of_nat (length lines) <= 2 ^ 31 ->
  Forall (encodable lines blank) labels ->
  map_to_chars (pad_row width blank <$> (encode_label table <$> labels))
    lines blank false = Ok labels.
Proof.
  intros Htable Hsize Hlabels.
  induction Hlabels as [|label labels Hlabel Hlabels IH]; [done|].
  rewrite !fmap_cons, map_to_chars_cons.
  by rewrite (decode_encoded_padded _ _ _ _ _ Htable Hsize Hlabel), bind_ok, IH.
Qed.

(** C1, as stated, fails: in the table of lines ["a"], ["b"], ["c"] with
    [blank_index=0], the character ["a"] is in the vocabulary and has the id
    0; the label ["a"] is encoded as [[0]] and decoded to the empty
    string. *)
Lemma roundtrip_loses_blank_line :
  exists table, make_table ["a"; "b"; "c"] 0 = Ok table /\
    (forall c, c ∈ unicode_split "a" -> c ∈ ["a"; "b"; "c"]) /\
    encode_label table "a" = [0] /\
    map_to_chars [encode_label table "a"] ["a"; "b"; "c"] 0 false = Ok [""] /\
    map_to_chars [encode_label table "a"] ["a"; "b"; "c"] 0 false <> Ok ["a"].
Proof.
  destruct (make_table ["a"; "b"; "c"] 0) as [table|e] eqn:E;
    [|by vm_compute in E].
  exists table. split; [done|].
  assert (E' := E). vm_compute in E'. injection E' as <-.
  split; [|by vm_compute].
  intros c Hc. simpl in Hc. apply list_elem_of_singleton in Hc as ->. by left.
Qed.

(** C1, amended. Let the table be built from the lines of the table file
    (at most 2^31 of them, so that ids survive the cast to int32), and let
    every character of every label be on a line of the file whose number is
    not [blank_index]. Then each label is decoded from its ids with
    [merge_repeated=False] to itself; and when [blank_index] fits in 32
    bits, so that it is itself the fill of the int32 label batch, so is a
    whole batch: the sparse label batch of [_convert_label], made dense with
    [blank_index] as fill, decodes to the labels of the batch. *)
Theorem encode_decode_roundtrip {Image : Type} (image : Image)
    lines blank table (labels : list string) :
  make_table lines blank = Ok table ->
  Z.of_nat (length lines) <= 2 ^ 31 ->
  Forall (encodable lines blank) labels ->
  (forall label, label ∈ labels ->
     map_to_chars [encode_label table label] lines blank false = Ok [label]) /\
  (- 2 ^ 31 <= blank < 2 ^ 31 ->
   (dense ← sparse_to_dense (_convert_label table image labels).2 blank;
    map_to_chars dense lines blank false) = Ok labels).
Proof.
  intros Htable Hsize Hlabels. split.
  - intros label Hlabel.
    rewrite Forall_forall in Hlabels. specialize (Hlabels label Hlabel).
    rewrite map_to_chars_cons, map_to_chars_nil.
    pose proof (decode_encoded_padded lines blank table label 0
                  Htable Hsize Hlabels) as Hpad.
    unfold pad_row in Hpad. cbn [replicate Nat.sub] in Hpad.
    rewrite app_nil_r in Hpad. by rewrite Hpad.
  - intros Hblank. rewrite convert_label_dense, bind_ok by done.
    by apply decode_encoded_batch.
Qed.

(** Without the bound the batch is not decoded: with [blank_index = 2^31]
    the int32 batch is filled with -2^31, which is not the blank and not an
    index of the table. *)
Example roundtrip_blank_out_of_range :
  (dense ← sparse_to_dense (_convert_label abc_lookup tt ["ab"; "a"]).2 (2 ^ 31);
   map_to_chars dense abc_table (2 ^ 31) false) = Raise IndexError.
Proof. vm_compute. reflexivity. Qed.

Lemma encodableb_sound lines blank label :
  encodableb lines blank label = true -> encodable lines blank label.
Proof.
  unfold encodableb, encodable. rewrite forallb_forall.
  intros H c Hc%list_elem_of_In. specialize (H c Hc).
  destruct (list_find (fun line => line = c) lines) as [[i line]|] eqn:E; [|done].
  apply list_find_Some in E as (Hi & -> & _).
  exists i. split; [done|]. apply negb_true_iff in H. lia.
Qed.

Lemma encode_decode_roundtrip_witness :
  (forall label, label ∈ ["ab"; "cab"; ""] ->
     map_to_chars [encode_label abc_lookup label] abc_table 0 false = Ok [label]) /\
  (- 2 ^ 31 <= 0 < 2 ^ 31 ->
   (dense ← sparse_to_dense (_convert_label abc_lookup tt ["ab"; "cab"; ""]).2 0;
    map_to_chars dense abc_table 0 false) = Ok ["ab"; "cab"; ""]).
Proof.
  apply (encode_decode_roundtrip tt abc_table 0 abc_lookup ["ab"; "cab"; ""]).
  - vm_compute. reflexivity.
  - vm_compute. discriminate.
  - repeat (apply Forall_cons; split; [apply encodableb_sound; reflexivity|]).
    apply Forall_nil_2.
Defined.

(** ** C6: batches of the samples that could be decoded *)

Lemma batch_from_concat {A : Type} (batch_size : nat) (current dataset : list A) :
  concat (batch_from batch_size current dataset) = current ++ dataset.
Proof.
  revert current. induction dataset as [|x dataset IH]; intros current.
  - destruct current; simpl; by rewrite ?app_nil_r.
  - cbn [batch_from].
    destruct (length (current ++ [x]) =? batch_size)%nat.
    + cbn [concat]. rewrite IH. by rewrite app_nil_l, <- app_assoc.
    + rewrite IH. by rewrite <- app_assoc.
Qed.

Lemma batch_sizes_small (batch_size n : nat) :
  (0 < n < batch_size)%nat -> batch_sizes batch_size n = [n].
Proof.
  intros Hn. unfold batch_sizes.
  rewrite Nat.div_small, Nat.mod_small by lia.
  destruct (Nat.eqb_spec n 0); [lia|done].
Qed.

Lemma batch_sizes_full (batch_size n : nat) :
  (0 < batch_size)%nat ->
  batch_sizes batch_size (batch_size + n) = batch_size :: batch_sizes batch_size n.
Proof.
  intros Hbs. unfold batch_sizes.
  replace (batch_size + n)%nat with (1 * batch_size + n)%nat by lia.
  rewrite Nat.div_add_l by lia.
  replace (1 * batch_size + n)%nat with (n + 1 * batch_size)%nat by lia.
  by rewrite Nat.Div0.mod_add.
Qed.

Lemma batch_from_sizes {A : Type} (batch_size : nat) (current dataset : list A) :
  (length current < batch_size)%nat ->
  length <$> batch_from batch_size current dataset
  = batch_sizes batch_size (length current + length dataset).
Proof.
  revert current. induction dataset as [|x dataset IH]; intros current Hcur.
  - rewrite Nat.add_0_r. destruct current as [|y current].
    + unfold batch_sizes. simpl length.
      by rewrite Nat.Div0.div_0_l, Nat.Div0.mod_0_l.
    + rewrite batch_sizes_small by (simpl in *; lia). done.
  - cbn [batch_from].
    assert (Hlen : length (current ++ [x]) = S (length current)).
    { rewrite length_app. simpl. lia. }
    destruct (Nat.eqb_spec (length (current ++ [x])) batch_size) as [E|E].
    + rewrite fmap_cons, (IH []) by (simpl; lia).
      simpl length. rewrite E.
      replace (length current + S (length dataset))%nat
        with (batch_size + length dataset)%nat by lia.
      rewrite batch_sizes_full by lia. done.
    + rewrite IH by lia. f_equal. simpl length. lia.
Qed.

Lemma batch_concat {A : Type} (batch_size : nat) (dataset : list A) :
  concat (batch batch_size dataset) = dataset.
Proof. apply batch_from_concat. Qed.

Lemma batch_lengths {A : Type} (batch_size : nat) (dataset : list A) :
  (0 < batch_size)%nat ->
  length <$> batch batch_size dataset = batch_sizes batch_size (length dataset).
Proof. intros H. unfold batch. by rewrite batch_from_sizes. Qed.

Lemma ignore_errors_length {A : Type} (dataset : list (result A)) :
  (length (ignore_errors dataset)
   + length (filter (fun r => is_ok r = false) dataset))%nat = length dataset.
Proof.
  induction dataset as [|r dataset IH]; [done|].
  unfold ignore_errors in *. rewrite filter_cons.
  destruct r as [a|e]; cbn [omap list_omap is_ok].
  - rewrite decide_False by done. simpl length. lia.
  - rewrite decide_True by done. simpl length. lia.
Qed.

Lemma sum_list_concat_lengths {A : Type} (batches : list (list A)) :
  sum_list (length <$> batches) = length (concat batches).
Proof.
  induction batches as [|b batches IH]; [done|].
  rewrite fmap_cons. simpl. by rewrite length_app, IH.
Qed.

Lemma convert_label_rows {Image : Type} table (image : Image) labels :
  (dense_shape (_convert_label table image labels).2).1 = Z.of_nat (length labels).
Proof.
  unfold _convert_label, ragged_to_sparse. simpl. by rewrite !length_fmap.
Qed.

Lemma fmap_concat {A B : Type} (f : A -> B) (ls : list (list A)) :
  f <$> concat ls = concat ((fun l : list A => f <$> l) <$> ls).
Proof.
  induction ls as [|l ls IH]; [done|].
  rewrite fmap_cons. cbn [concat]. by rewrite fmap_app, IH.
Qed.

Section PipelineFacts.
Context {Image : Type}.
Variable load_image : Z -> Z -> string -> result Image.
Variable shuffle_order : nat -> list (string * string) -> list (string * string).
Variables image_height image_width : Z.

Lemma decode_and_resize_is_ok filename label :
  is_ok (_decode_and_resize load_image image_height image_width filename label)
  = is_ok (load_image image_height image_width filename).
Proof.
  unfold _decode_and_resize.
  by destruct (load_image image_height image_width filename).
Qed.

Lemma failed_samples_count imgpaths labels :
  length (filter (fun r => is_ok r = false)
            ((fun s => _decode_and_resize load_image image_height image_width s.1 s.2)
             <$> zip imgpaths labels))
  = failed_samples load_image image_height image_width imgpaths labels.
Proof.
  unfold failed_samples.
  induction (zip imgpaths labels) as [|s samples IH]; [done|].
  rewrite fmap_cons, !filter_cons, decode_and_resize_is_ok.
  destruct (is_ok (load_image image_height image_width s.1)).
  - by rewrite !decide_False by done.
  - rewrite !decide_True by done. simpl. by rewrite IH.
Qed.

Lemma decoded_samples_length imgpaths labels :
  length imgpaths = length labels ->
  length (decoded_samples load_image image_height image_width imgpaths labels)
  = (length imgpaths
     - failed_samples load_image image_height image_width imgpaths labels)%nat.
Proof.
  intros Hlen. unfold decoded_samples.
  pose proof (ignore_errors_length
                ((fun s => _decode_and_resize load_image image_height image_width
                             s.1 s.2) <$> zip imgpaths labels)) as H.
  rewrite failed_samples_count, length_fmap, length_zip_with in H. lia.
Qed.

(** The labels that reach the batches are those of the samples whose image
    loads, in order. *)
Lemma decoded_samples_labels imgpaths labels :
  snd <$> decoded_samples load_image image_height image_width imgpaths labels
  = snd <$> filter (fun s => is_ok (load_image image_height image_width s.1) = true)
              (zip imgpaths labels).
Proof.
  unfold decoded_samples, ignore_errors.
  induction (zip imgpaths labels) as [|s samples IH]; [done|].
  rewrite fmap_cons, filter_cons. cbn [omap list_omap]. unfold _decode_and_resize at 1.
  destruct (load_image image_height image_width s.1) as [image|e]; cbn.
  - by rewrite IH.
  - by rewrite IH.
Qed.

Lemma make_dataset_one_pass table imgpaths labels (batch_size : Z) :
  length imgpaths = length labels -> 0 < batch_size ->
  make_dataset load_image shuffle_order table image_height image_width
    imgpaths labels batch_size false 1
  = Ok ((fun b => _convert_label table (fst <$> b) (snd <$> b))
        <$> batch (Z.to_nat batch_size)
              (decoded_samples load_image image_height image_width imgpaths labels)).
Proof.
  intros Hlen Hbs. unfold make_dataset.
  rewrite Hlen, Nat.eqb_refl. cbn [negb].
  destruct (Z.leb_spec batch_size 0); [lia|].
  cbn [seq fmap list_fmap concat]. by rewrite app_nil_r.
Qed.

(** C6. Five samples, [batch_size=2], no shuffle, one pass. The batches are
    the samples whose image could be loaded, in order, cut into groups of two
    with the rest as a last batch: their sizes are [2,2,1] when no image
    fails (and those of the batches of [5 - failed] samples in general), they
    add up to 5 minus the number of failed samples, the images and labels in
    them are those of the surviving samples and of no other, and the sparse
    label batch has as many rows as the batch has images. *)
Theorem batches_of_survivors table imgpaths labels :
  length imgpaths = 5%nat -> length labels = 5%nat ->
  let survivors :=
    decoded_samples load_image image_height image_width imgpaths labels in
  let failed :=
    failed_samples load_image image_height image_width imgpaths labels in
  exists dataset,
    make_dataset load_image shuffle_order table image_height image_width
      imgpaths labels 2 false 1 = Ok dataset /\
    (failed = 0%nat -> (fun b => length b.1) <$> dataset = [2; 2; 1]%nat) /\
    (fun b => length b.1) <$> dataset = batch_sizes 2 (5 - failed) /\
    sum_list ((fun b => length b.1) <$> dataset) = (5 - failed)%nat /\
    concat (fst <$> dataset) = fst <$> survivors /\
    snd <$> survivors
    = snd <$> filter (fun s => is_ok (load_image image_height image_width s.1) = true)
                (zip imgpaths labels) /\
    snd <$> dataset
    = (fun b => (_convert_label table tt (snd <$> b)).2) <$> batch 2 survivors /\
    Forall (fun b => (dense_shape b.2).1 = Z.of_nat (length b.1)) dataset.
Proof.
  intros Hpaths Hlabels survivors failed.
  eexists. split.
  { apply make_dataset_one_pass; [congruence|lia]. }
  fold survivors. change (Z.to_nat 2) with 2%nat.
  assert (Hsurv : length survivors = (5 - failed)%nat).
  { unfold survivors, failed. rewrite decoded_samples_length by congruence.
    by rewrite Hpaths. }
  assert (Hsizes : (fun b : list Image * SparseTensor => length b.1)
                   <$> ((fun b => _convert_label table (fst <$> b) (snd <$> b))
                        <$> batch 2 survivors)
                   = batch_sizes 2 (5 - failed)).
  { rewrite <- list_fmap_compose, <- Hsurv, <- batch_lengths by lia.
    apply list_fmap_ext. intros i b _. simpl. by rewrite length_fmap. }
  split; [|split; [|split; [|split; [|split; [|split]]]]].
  - intros Hfailed. rewrite Hsizes, Hfailed. reflexivity.
  - exact Hsizes.
  - rewrite Hsizes, <- Hsurv, <- (batch_lengths 2 survivors) by lia.
    by rewrite sum_list_concat_lengths, batch_concat.
  - rewrite <- (batch_concat 2 survivors) at 2. rewrite fmap_concat.
    by rewrite <- list_fmap_compose.
  - apply decoded_samples_labels.
  - by rewrite <- list_fmap_compose.
  - apply Forall_fmap, Forall_forall. intros b _. unfold compose.
    rewrite convert_label_rows. unfold _convert_label. cbn [fst].
    by rewrite !length_fmap.
Qed.

End PipelineFacts.

Lemma batches_of_survivors_witness :
  let survivors := decoded_samples load_five 32 100 five_paths five_labels in
  let failed := failed_samples load_five 32 100 five_paths five_labels in
  exists dataset,
    make_dataset load_five (fun _ => id) abc_lookup 32 100 five_paths five_labels
      2 false 1
    = Ok dataset /\
    (failed = 0%nat -> (fun b => length b.1) <$> dataset = [2; 2; 1]%nat) /\
    (fun b => length b.1) <$> dataset = batch_sizes 2 (5 - failed) /\
    sum_list ((fun b => length b.1) <$> dataset) = (5 - failed)%nat /\
    concat (fst <$> dataset) = fst <$> survivors /\
    snd <$> survivors
    = snd <$> filter (fun s => is_ok (load_five 32 100 s.1) = true)
                (zip five_paths five_labels) /\
    snd <$> dataset
    = (fun b => (_convert_label abc_lookup tt (snd <$> b)).2) <$> batch 2 survivors /\
    Forall (fun b => (dense_shape b.2).1 = Z.of_nat (length b.1)) dataset.
Proof.
  apply (batches_of_survivors load_five (fun _ => id) 32 100 abc_lookup
           five_paths five_labels);
    reflexivity.
Defined.

(** The sample at index 3 fails: two batches of two, made of the other four
    samples; the label batches have two rows each. *)
Example dropped_sample_3 :
  exists b1 b2,
    make_dataset load_five (fun _ => id) abc_lookup 32 100 five_paths five_labels
      2 false 1
    = Ok [b1; b2] /\
    b1.1 = ["img/0_ab_0.jpg"; "img/1_c_0.jpg"] /\
    b2.1 = ["img/2_ba_0.jpg"; "img/4_cab_0.jpg"] /\
    sparse_to_dense b1.2 0 = Ok [[1; 2]; [3; 0]] /\
    sparse_to_dense b2.2 0 = Ok [[2; 1; 0]; [3; 1; 2]].
Proof. do 2 eexists. repeat split; vm_compute; reflexivity. Qed.

(** None fails: batches of sizes 2, 2 and 1. *)
Example five_samples_three_batches :
  (fun b => length b.1)
  <$> default [] (match make_dataset (fun _ _ f => Ok f) (fun _ => id) abc_lookup 32 100
                          five_paths five_labels 2 false 1 with
                  | Ok dataset => Some dataset
                  | Raise _ => None
                  end)
  = [2; 2; 1]%nat.
Proof. vm_compute. reflexivity. Qed.

(** ** C7: annotation files *)

Example strip_split_ex :
  split_ws (strip "  1_hello_0.jpg   0
") = ["1_hello_0.jpg"; "0"].
Proof. reflexivity. Qed.

Example split_on_ex : split_on "_" "1_hello_0.jpg" = ["1"; "hello"; "0.jpg"].
Proof. reflexivity. Qed.

Example split_on_empty_ex : split_on "," "" = [""] /\ split_on "," "a,,b" = ["a"; ""; "b"].
Proof. split; reflexivity. Qed.

Example dirname_ex :
  dirname "data/mjsynth/annotation_train.txt" = "data/mjsynth" /\
  dirname "annotation.txt" = "" /\
  dirname "/annotation.txt" = "/" /\
  dirname "a//b" = "a".
Proof. repeat split; reflexivity. Qed.

Example path_join_ex :
  path_join "data/mjsynth" "1/2/3_hello_0.jpg" = "data/mjsynth/1/2/3_hello_0.jpg" /\
  path_join "" "x.jpg" = "x.jpg" /\
  path_join "data/" "x.jpg" = "data/x.jpg" /\
  path_join "data" "/abs/x.jpg" = "/abs/x.jpg".
Proof. repeat split; reflexivity. Qed.

(** A loop that appends one computed item per element is a map, when every
    item can be computed. *)
Lemma for_each_collect {A B : Type} (f : A -> result B) (g : A -> B) acc (l : list A) :
  (forall x, x ∈ l -> f x = Ok (g x)) ->
  for_each (fun acc x => y ← f x; Ok (acc ++ [y])) acc l = Ok (acc ++ (g <$> l)).
Proof.
  revert acc. induction l as [|x l IH]; intros acc Hf.
  - by rewrite for_each_nil, app_nil_r.
  - rewrite for_each_cons, (Hf x) by (by left). rewrite !bind_ok.
    rewrite IH by (intros y Hy; apply Hf; by right).
    by rewrite fmap_cons, <- app_assoc.
Qed.

Lemma split_on_two_fields sep s :
  contains sep s = true ->
  exists field1 field2 fields, split_on sep s = field1 :: field2 :: fields.
Proof.
  induction s as [|c s IH]; [done|].
  cbn [contains split_on].
  destruct (Ascii.eqb c sep).
  - intros _. destruct s as [|c' s']; [by exists EmptyString, EmptyString, []|].
    destruct (split_on sep (String c' s')) as [|f fs] eqn:E.
    + exfalso. cbn [split_on] in E. destruct (Ascii.eqb c' sep); [done|].
      by destruct (split_on sep s').
    + by exists EmptyString, f, fs.
  - rewrite orb_false_l. intros Hs. destruct (IH Hs) as (f1 & f2 & fs & ->).
    by exists (String c f1), f2, fs.
Qed.

Lemma mjsynth_line_label line :
  mjsynth_line line = true ->
  getitem (split_on "_" (first_token line)) 1 = Ok (sample_label line).
Proof.
  unfold mjsynth_line. rewrite !andb_true_iff. intros [[_ Hsep] _].
  apply split_on_two_fields in Hsep as (f1 & f2 & fs & E).
  unfold sample_label. rewrite E. apply getitem_nonneg; [lia|done].
Qed.

Lemma mjsynth_line_item line :
  mjsynth_line line = true ->
  getitem (np_item <$> split_ws (strip line)) 0 = Ok (first_token line).
Proof.
  unfold mjsynth_line, first_token. rewrite !andb_true_iff. intros [[Hlen _] Hnul].
  destruct (split_ws (strip line)) as [|token tokens]; [done|].
  simpl in Hnul. apply String.eqb_eq in Hnul.
  apply getitem_nonneg; [lia|]. simpl. by rewrite Hnul.
Qed.

Lemma mjsynth_file_array object_arrays lines :
  mjsynth_file lines = true ->
  np_array object_arrays ((fun line => split_ws (strip line)) <$> lines)
  = Ok (Matrix ((fun line => np_item <$> split_ws (strip line)) <$> lines)) /\
  Forall (fun line => mjsynth_line line = true) lines.
Proof.
  unfold mjsynth_file. destruct lines as [|line lines]; [done|].
  rewrite andb_true_iff. intros [Hlines Hwidth]. split.
  - unfold np_array. rewrite fmap_cons.
    assert (Hw : forallb
                   (fun row' => (length row' =? length (split_ws (strip line)))%nat)
                   ((fun line => split_ws (strip line)) <$> lines) = true).
    { rewrite forallb_forall in Hwidth. apply forallb_forall.
      intros row Hrow%list_elem_of_In.
      apply list_elem_of_fmap in Hrow as (line' & -> & Hin%list_elem_of_In).
      by apply Hwidth. }
    rewrite Hw. do 2 f_equal. rewrite !fmap_cons. f_equal.
    by rewrite <- list_fmap_compose.
  - apply Forall_forall. intros l Hl%list_elem_of_In.
    rewrite forallb_forall in Hlines. by apply Hlines.
Qed.

Section AnnotationFacts.
Variable object_arrays : bool.
Variable readlines : string -> result (list string).

(** What one round of the loop over the annotation files adds. *)
Lemma read_annotation_file_mjsynth acc annpath :
  is_ok (readlines annpath) && mjsynth_file (file_lines readlines annpath) = true ->
  read_annotation_file object_arrays readlines acc annpath
  = Ok (acc.1 ++ (sample_path annpath <$> file_lines readlines annpath),
        acc.2 ++ (sample_label <$> file_lines readlines annpath)).
Proof.
  rewrite andb_true_iff. unfold file_lines, read_annotation_file.
  destruct (readlines annpath) as [lines|e]; [|by intros [? _]].
  intros [_ Hfile]. rewrite bind_ok.
  destruct (mjsynth_file_array object_arrays lines Hfile) as [-> Hlines].
  rewrite Forall_forall in Hlines.
  rewrite bind_ok. unfold column0.
  rewrite (for_each_collect (fun row => getitem row 0) (fun row => default EmptyString (head row))).
  2:{ intros row (line & -> & Hline)%list_elem_of_fmap.
      rewrite (mjsynth_line_item line (Hlines line Hline)). f_equal.
      unfold mjsynth_line, first_token in *.
      specialize (Hlines line Hline). rewrite !andb_true_iff in Hlines.
      destruct Hlines as [[_ _] Hnul].
      destruct (split_ws (strip line)) as [|token tokens]; [done|].
      simpl in *. by apply String.eqb_eq in Hnul. }
  rewrite bind_ok, app_nil_l.
  assert (Htokens :
            (fun row => default EmptyString (head row))
            <$> ((fun line => np_item <$> split_ws (strip line)) <$> lines)
            = first_token <$> lines).
  { rewrite <- list_fmap_compose.
    apply list_fmap_ext. intros i line Hi. simpl.
    apply list_elem_of_lookup_2 in Hi. specialize (Hlines line Hi).
    unfold mjsynth_line, first_token in *. rewrite !andb_true_iff in Hlines.
    destruct Hlines as [[_ _] Hnul].
    destruct (split_ws (strip line)) as [|token tokens]; [done|].
    simpl in *. by apply String.eqb_eq in Hnul. }
  rewrite Htokens.
  rewrite (for_each_collect (fun line => getitem (split_on "_" line) 1)
             (fun token => default EmptyString (split_on "_" token !! 1%nat))).
  2:{ intros token (line & -> & Hline)%list_elem_of_fmap.
      apply (mjsynth_line_label line), Hlines, Hline. }
  rewrite bind_ok, app_nil_l, <- !list_fmap_compose. done.
Qed.

Lemma read_annotation_files_mjsynth acc annpaths :
  forallb (fun annpath => is_ok (readlines annpath)
                          && mjsynth_file (file_lines readlines annpath)) annpaths
  = true ->
  for_each (read_annotation_file object_arrays readlines) acc annpaths
  = Ok (acc.1 ++ concat ((fun annpath => sample_path annpath
                                           <$> file_lines readlines annpath)
                         <$> annpaths),
        acc.2 ++ concat ((fun annpath => sample_label
                                           <$> file_lines readlines annpath)
                         <$> annpaths)).
Proof.
  revert acc. induction annpaths as [|annpath annpaths IH]; intros acc Hall.
  - rewrite for_each_nil. simpl. rewrite !app_nil_r. by destruct acc.
  - cbn [forallb] in Hall. apply andb_true_iff in Hall as [Hfile Hall].
    rewrite for_each_cons, (read_annotation_file_mjsynth acc annpath Hfile), bind_ok.
    rewrite (IH _ Hall). cbn [fst snd]. rewrite !fmap_cons. cbn [concat].
    by rewrite <- !app_assoc.
Qed.

(** C7, amended. When every annotation file of the comma-separated list can
    be read and is in the MjSynth format (at least one line, every line with
    the same non-zero number of whitespace tokens, a ["_"] in every first
    token and no NUL character at its end), parsing returns, on every
    version of numpy, one sample for every line: its path is the first
    token joined with the directory of the annotation file, its label the
    second field of the first token split on ["_"]. The samples are in the
    order of the files and, within a file, of its lines, and none is left
    out. *)
Theorem parse_annotations annotation_path :
  mjsynth_files readlines annotation_path = true ->
  read_imagepaths_and_labels object_arrays readlines annotation_path
  = Ok (concat ((fun annpath => sample_path annpath <$> file_lines readlines annpath)
                <$> split_on "," annotation_path),
        concat ((fun annpath => sample_label <$> file_lines readlines annpath)
                <$> split_on "," annotation_path)).
Proof.
  intros Hall. unfold read_imagepaths_and_labels.
  by rewrite (read_annotation_files_mjsynth ([], []) _ Hall).
Qed.

End AnnotationFacts.

Lemma parse_annotations_witness :
  read_imagepaths_and_labels false annotation_files "data/train.txt,val.txt"
  = Ok (concat ((fun annpath => sample_path annpath <$> file_lines annotation_files annpath)
                <$> split_on "," "data/train.txt,val.txt"),
        concat ((fun annpath => sample_label <$> file_lines annotation_files annpath)
                <$> split_on "," "data/train.txt,val.txt")).
Proof.
  apply (parse_annotations false annotation_files "data/train.txt,val.txt").
  reflexivity.
Defined.

(** Two files, three samples, in the order of the files and lines; the label
    ["coley"] is there twice. *)
Example parse_annotations_ex :
  read_imagepaths_and_labels true annotation_files "data/train.txt,val.txt"
  = Ok (["data/1/2/373_coley_14845.jpg"; "data/1/2/372_steered_74435.jpg";
         "9_coley_1.jpg"],
        ["coley"; "steered"; "coley"]).
Proof. vm_compute. reflexivity. Qed.

(** C7, as stated, fails. The file [gap.txt] has two samples and an empty
    line between them: the empty line is not skipped, the rows of tokens do
    not form a matrix, and parsing raises ([IndexError] from [content[:, 0]]
    on numpy before 1.24, [ValueError] from [np.array] from 1.24 on) instead
    of returning the two samples. And in the file [a/b/nul.txt] the name of
    the image ends with a NUL character, which the array of numpy drops: the
    path returned is not the first token joined with the directory, nor is
    the label a field of that token. *)
Lemma empty_line_fails_parsing :
  annotation_files "gap.txt"
  = Ok ["1_hello_0.jpg 0" +:+ newline; newline; "2_world_1.jpg 1" +:+ newline] /\
  read_imagepaths_and_labels true annotation_files "gap.txt" = Raise IndexError /\
  read_imagepaths_and_labels false annotation_files "gap.txt" = Raise ValueError /\
  first_token ("x_ab" +:+ String "000" EmptyString +:+ " 0" +:+ newline)
  = "x_ab" +:+ String "000" EmptyString /\
  read_imagepaths_and_labels true nul_files "a/b/nul.txt"
  = Ok (["a/b/x_ab"], ["ab"]) /\
  read_imagepaths_and_labels false nul_files "a/b/nul.txt"
  = Ok (["a/b/x_ab"], ["ab"]) /\
  "a/b/x_ab" <> path_join (dirname "a/b/nul.txt") ("x_ab" +:+ String "000" EmptyString).
Proof. repeat split; vm_compute; done. Qed.

(** ** The loader as a whole *)

(** Three samples are found in the two annotation files; with
    [batch_size=2] they come in two batches, of two and of one. [len]
    is the number of samples found. *)
Example loader_ex :
  exists loader,
    __init__ true annotation_files (fun _ => Ok abc_table) (fun _ _ f => Ok f)
      (fun _ => id) "data/train.txt,val.txt" 32 100 "table.txt" 0 2 false 1
    = Ok loader /\
    __len__ loader = 3%nat /\
    fst <$> __call__ loader
    = [["data/1/2/373_coley_14845.jpg"; "data/1/2/372_steered_74435.jpg"];
       ["9_coley_1.jpg"]].
Proof. eexists. repeat split; vm_compute; reflexivity. Qed.

(** * Further properties *)

(** ** [map_to_chars] *)

(** X1. [map_to_chars] returns the texts [texts] exactly when [texts] has
    one text for each line of [inputs], in order, each the decoding of its
    own line from the start state: no state passes from one line to the
    next. *)
Theorem map_to_chars_linewise inputs table blank merge texts :
  map_to_chars inputs table blank merge = Ok texts <->
  Forall2 (fun line t => decode_text table blank merge line = Ok t) inputs texts.
Proof.
  revert texts. induction inputs as [|line inputs IH]; intros texts.
  - rewrite map_to_chars_nil. split.
    + intros [= <-]. constructor.
    + intros H. by inversion H.
  - rewrite map_to_chars_cons. split.
    + destruct (decode_text table blank merge line) as [t|e] eqn:Et; [|done].
      rewrite bind_ok.
      destruct (map_to_chars inputs table blank merge) as [ts|e] eqn:Ets; [|done].
      rewrite bind_ok. intros [= <-]. constructor; [done|]. by apply IH.
    + intros H. inversion H as [|line' t inputs' ts Ht Hts]; subst.
      rewrite Ht, bind_ok. apply IH in Hts. by rewrite Hts.
Qed.

(** With [merge_repeated=False] the text a loop builds depends on the text
    it starts from only, not on [previous_char]. *)
Lemma plain_loop_text table blank st st' line :
  text st = text st' ->
  text <$> for_each (char_step table blank false) st line
  = text <$> for_each (char_step table blank false) st' line.
Proof.
  revert st st'. induction line as [|a line IH]; intros st st' Htext.
  - simpl. by rewrite Htext.
  - rewrite !for_each_cons, !char_step_plain, Htext.
    destruct (a =? blank); [rewrite !bind_ok; by apply IH|].
    destruct (getitem table a) as [c|e]; [|done].
    by rewrite !bind_ok.
Qed.

Lemma plain_loop_filter table blank st line :
  text <$> for_each (char_step table blank false) st
             (filter (fun i => i <> blank) line)
  = text <$> for_each (char_step table blank false) st line.
Proof.
  revert st. induction line as [|a line IH]; intros st; [done|].
  rewrite filter_cons. destruct (decide (a <> blank)) as [Ha|Ha].
  - rewrite !for_each_cons.
    destruct (char_step table blank false st a) as [st'|e]; [|done].
    rewrite !bind_ok. apply IH.
  - assert (a = blank) as -> by lia.
    rewrite for_each_cons, char_step_plain, Z.eqb_refl, bind_ok, IH.
    by apply plain_loop_text.
Qed.

(** X2. With [merge_repeated=False] the blank ids of the input do not
    matter at all: taking them out of every line changes neither the texts
    nor whether the call raises. *)
Theorem plain_decode_ignores_blanks inputs table blank :
  map_to_chars ((fun line => filter (fun i => i <> blank) line) <$> inputs)
    table blank false
  = map_to_chars inputs table blank false.
Proof.
  induction inputs as [|line inputs IH]; [done|].
  rewrite fmap_cons, !map_to_chars_cons, IH. unfold decode_text, decode_line.
  by rewrite plain_loop_filter.
Qed.

Lemma char_step_previous table blank merge st a st' :
  (merge = true -> a <> previous_char st) ->
  char_step table blank merge st a = Ok st' -> previous_char st' = a.
Proof.
  intros Hne. unfold char_step.
  destruct merge; simpl.
  - destruct (Z.eqb_spec a (previous_char st)) as [E|_]; [by destruct Hne|].
    destruct (a =? blank); [by intros [= <-]|].
    destruct (getitem table a); [by intros [= <-]|done].
  - destruct (a =? blank); [by intros [= <-]|].
    destruct (getitem table a); [by intros [= <-]|done].
Qed.

Lemma char_step_merge_new table blank st a :
  a <> previous_char st ->
  char_step table blank true st a = char_step table blank false st a.
Proof.
  intros Hne. unfold char_step. simpl.
  by destruct (Z.eqb_spec a (previous_char st)).
Qed.

Lemma merge_loop_collapse table blank st line :
  for_each (char_step table blank true) st line
  = for_each (char_step table blank false) st
      (collapse_repeats (previous_char st) line).
Proof.
  revert st. induction line as [|a line IH]; intros st; [done|].
  cbn [collapse_repeats]. rewrite for_each_cons.
  destruct (Z.eqb_spec a (previous_char st)) as [E|E].
  - rewrite char_step_repeat by done. rewrite bind_ok. apply IH.
  - rewrite for_each_cons, char_step_merge_new by done.
    destruct (char_step table blank false st a) as [st'|e] eqn:Est; [|done].
    rewrite !bind_ok, IH.
    by rewrite (char_step_previous table blank false st a st' ltac:(done) Est).
Qed.

(** X3. Decoding with [merge_repeated=True] is decoding with
    [merge_repeated=False] of the lines from which every id equal to the id
    before it has been taken out, -1 counting as the id before the first:
    same texts, same exception. *)
Theorem merge_is_collapse_then_decode inputs table blank :
  map_to_chars inputs table blank true
  = map_to_chars (collapse_repeats (-1) <$> inputs) table blank false.
Proof.
  induction inputs as [|line inputs IH]; [done|].
  rewrite fmap_cons, !map_to_chars_cons, IH. unfold decode_text, decode_line.
  by rewrite merge_loop_collapse.
Qed.

Lemma getitem_wrap {A : Type} (l : list A) (i : Z) :
  0 <= i < Z.of_nat (length l) ->
  getitem l (i - Z.of_nat (length l)) = getitem l i.
Proof.
  intros Hi. unfold getitem.
  destruct (Z.ltb_spec (i - Z.of_nat (length l)) 0); [|lia].
  destruct (Z.ltb_spec i 0); [lia|].
  by replace (i - Z.of_nat (length l) + Z.of_nat (length l)) with i by lia.
Qed.

(** X4. A negative id is not an error: for an id [i] of the table, the id
    [i - len(table)] is decoded to the same character as [i], wherever it
    stands in the line (neither of the two being the blank). *)
Theorem negative_id_wraps table blank (i : Z) (before after : list Z) :
  0 <= i < Z.of_nat (length table) ->
  i <> blank -> i - Z.of_nat (length table) <> blank ->
  decode_text table blank false (before ++ (i - Z.of_nat (length table)) :: after)
  = decode_text table blank false (before ++ i :: after).
Proof.
  intros Hi Hblank Hblank'. unfold decode_text, decode_line.
  rewrite !for_each_app.
  destruct (for_each _ line_start before) as [st|e]; [|done].
  rewrite !bind_ok, !for_each_cons, !char_step_plain, getitem_wrap by done.
  destruct (Z.eqb_spec (i - Z.of_nat (length table)) blank); [done|].
  destruct (Z.eqb_spec i blank); [done|].
  destruct (getitem table i) as [c|e]; [|done].
  rewrite !bind_ok. by apply plain_loop_text.
Qed.

Lemma negative_id_wraps_witness :
  decode_text abc_table 0 false ([1; 2] ++ (3 - Z.of_nat (length abc_table)) :: [1])
  = decode_text abc_table 0 false ([1; 2] ++ 3 :: [1]).
Proof.
  apply (negative_id_wraps abc_table 0 3 [1; 2] [1]); [simpl; lia|lia|simpl; lia].
Defined.

(** ** [map_and_count] *)

Lemma dense_rows_raises sp fill e :
  dense_rows sp fill = Raise e -> e = InvalidArgumentError.
Proof.
  unfold dense_rows. destruct (negb _); [by intros [= <-]|done].
Qed.

(** Whether [default_value] is accepted does not depend on the type of the
    tensor, and it is refused with [ValueError] only. *)
Lemma convert_default_cases dt dt' d :
  (exists fill fill', convert_default dt d = Ok fill /\
                      convert_default dt' d = Ok fill') \/
  (convert_default dt d = Raise ValueError /\
   convert_default dt' d = Raise ValueError).
Proof.
  unfold convert_default. destruct (_ && _); [left|right; done].
  by eexists _, _.
Qed.

Lemma count_matches_swap (l k : list string) :
  count_matches (zip l k) = count_matches (zip k l).
Proof.
  revert k. induction l as [|x l IH]; intros [|y k]; try done.
  change (count_matches ((x, y) :: zip l k) = count_matches ((y, x) :: zip k l)).
  rewrite !count_matches_cons, IH. cbn [fst snd].
  by rewrite (String.eqb_sym x y).
Qed.

(** X5. The count does not depend on which batch is called the prediction:
    with the two batches exchanged [map_and_count] returns the same count,
    or raises the same exception. *)
Theorem map_and_count_symmetric sp rest Y rest' mapper blank merge :
  map_and_count (sp :: rest) Y mapper blank merge
  = map_and_count (Y :: rest') sp mapper blank merge.
Proof.
  rewrite !map_and_count_rows. unfold count_rows, sparse_to_dense.
  destruct (convert_default_cases (dtype sp) (dtype Y) blank)
    as [(fill & fill' & -> & ->)|[-> ->]]; [|done].
  rewrite !bind_ok.
  destruct (dense_rows sp fill) as [rows_p|e1] eqn:E1;
    destruct (dense_rows Y fill') as [rows_y|e2] eqn:E2;
    rewrite ?bind_ok;
    try apply dense_rows_raises in E1;
    try apply dense_rows_raises in E2; subst; try done.
  destruct (map_to_chars rows_p mapper blank merge) as [tp|e1] eqn:Ep;
    destruct (map_to_chars rows_y mapper blank merge) as [ty|e2] eqn:Ey;
    rewrite ?bind_ok;
    try apply map_to_chars_raises in Ep;
    try apply map_to_chars_raises in Ey; subst; try done.
  by rewrite count_matches_swap.
Qed.




(** ** [_convert_label] *)

Lemma unicode_split_length label :
  length (unicode_split label) = String.length label.
Proof. induction label as [|c label IH]; simpl; [done|]. by rewrite IH. Qed.

(** X7. The label batch that [_convert_label] builds is a valid sparse
    tensor of type int32, and made dense with a fill value [fill] that fits
    in 32 bits it has one row for each label of the batch: the ids of the
    characters of the label, in order, as many as the label has characters,
    followed by [fill] up to the length of the longest label of the
    batch. *)
Theorem label_batch_dense {Image : Type} table (image : Image) labels fill :
  - 2 ^ 31 <= fill < 2 ^ 31 ->
  dtype (_convert_label table image labels).2 = tf_int32 /\
  sparse_to_dense (_convert_label table image labels).2 fill
  = Ok (pad_row (max_list (String.length <$> labels)) fill
        <$> (encode_label table <$> labels)) /\
  Forall (fun label => length (encode_label table label) = String.length label)
    labels.
Proof.
  intros Hfill. split; [done|]. split.
  - rewrite convert_label_dense by done. do 3 f_equal.
    rewrite <- list_fmap_compose. f_equal.
    apply list_fmap_ext. intros i label _. simpl.
    unfold encode_label. by rewrite length_fmap, unicode_split_length.
  - apply Forall_forall. intros label _.
    unfold encode_label. by rewrite length_fmap, unicode_split_length.
Qed.

Lemma label_batch_dense_witness :
  dtype (_convert_label abc_lookup tt ["ab"; "c"; "cab"]).2 = tf_int32 /\
  sparse_to_dense (_convert_label abc_lookup tt ["ab"; "c"; "cab"]).2 (-1)
  = Ok (pad_row (max_list (String.length <$> ["ab"; "c"; "cab"])) (-1)
        <$> (encode_label abc_lookup <$> ["ab"; "c"; "cab"])) /\
  Forall (fun label => length (encode_label abc_lookup label) = String.length label)
    ["ab"; "c"; "cab"].
Proof. apply (label_batch_dense abc_lookup tt ["ab"; "c"; "cab"] (-1)). lia. Defined.

Example label_batch_dense_ex :
  sparse_to_dense (_convert_label abc_lookup tt ["ab"; "c"; "cab"]).2 (-1)
  = Ok [[1; 2; -1]; [3; -1; -1]; [3; 1; 2]].
Proof. vm_compute. reflexivity. Qed.

(** ** Encoding, then decoding *)

Lemma encodableb_char lines blank table (c : ascii) :
  make_table lines blank = Ok table ->
  (encodableb lines blank (String c EmptyString) = true /\
   exists i : nat, lines !! i = Some (String c EmptyString) /\ Z.of_nat i <> blank /\
                   table_lookup table (String c EmptyString) = Z.of_nat i) \/
  (encodableb lines blank (String c EmptyString) = false /\
   table_lookup table (String c EmptyString) = blank).
Proof.
  intros Htable. unfold encodableb. cbn [unicode_split forallb].
  rewrite andb_true_r.
  destruct (list_find (fun line => line = String c EmptyString) lines)
    as [[i line]|] eqn:E.
  - apply list_find_Some in E as (Hi & -> & _).
    pose proof (make_table_line _ _ _ _ _ Htable Hi) as Hlookup.
    destruct (Z.eqb_spec (Z.of_nat i) blank) as [Hb|Hb].
    + right. split; [done|]. by rewrite Hlookup.
    + left. split; [done|]. by exists i.
  - right. split; [done|]. apply (make_table_absent _ _ _ _ Htable).
    apply list_find_None in E. rewrite Forall_forall in E.
    intros Hin. by apply (E _ Hin).
Qed.

Lemma decode_encoded_any lines blank table st label :
  make_table lines blank = Ok table ->
  Z.of_nat (length lines) <= 2 ^ 31 ->
  - 2 ^ 31 <= blank < 2 ^ 31 ->
  text <$> for_each (char_step lines blank false) st (encode_label table label)
  = Ok (text st +:+ decodable_part lines blank label).
Proof.
  intros Htable Hsize Hblank. revert st.
  induction label as [|c label IH]; intros st.
  - simpl. by rewrite append_empty.
  - unfold encode_label. cbn [unicode_split decodable_part].
    rewrite fmap_cons, for_each_cons. fold (encode_label table label).
    destruct (encodableb_char lines blank table c Htable)
      as [(-> & i & Hi & Hne & Hlookup)|(-> & Hlookup)]; rewrite Hlookup.
    + rewrite cast_int32_small by (apply lookup_lt_Some in Hi; lia).
      rewrite (char_step_emit lines blank false st (Z.of_nat i) (String c EmptyString));
        [|done|done|apply getitem_nonneg; [lia|by rewrite Nat2Z.id]].
      rewrite bind_ok, IH. cbn [text]. by rewrite append_one.
    + rewrite cast_int32_small by done.
      rewrite char_step_plain, Z.eqb_refl, bind_ok, IH. done.
Qed.

(** X8. What encoding and decoding keep of any label. For a table built
    from the lines of the table file (at most 2^31 of them) and a
    [blank_index] that fits in 32 bits, a label encoded and then decoded
    with [merge_repeated=False] comes back without the characters that are
    on no line of the table or on line [blank_index], the others in their
    order; and decoding never raises. *)
Theorem encode_decode_keeps_known lines blank table label :
  make_table lines blank = Ok table ->
  Z.of_nat (length lines) <= 2 ^ 31 ->
  - 2 ^ 31 <= blank < 2 ^ 31 ->
  map_to_chars [encode_label table label] lines blank false
  = Ok [decodable_part lines blank label].
Proof.
  intros Htable Hsize Hblank.
  rewrite map_to_chars_cons, map_to_chars_nil. unfold decode_text, decode_line.
  by rewrite (decode_encoded_any lines blank table line_start label).
Qed.

Lemma encode_decode_keeps_known_witness :
  map_to_chars [encode_label abc_lookup "a_bxc"] abc_table 0 false
  = Ok [decodable_part abc_table 0 "a_bxc"].
Proof.
  apply (encode_decode_keeps_known abc_table 0 abc_lookup "a_bxc").
  - vm_compute. reflexivity.
  - vm_compute. discriminate.
  - lia.
Defined.

Example decodable_part_ex : decodable_part abc_table 0 "a_bxc" = "abc".
Proof. reflexivity. Qed.

Lemma encode_label_ids_ok lines blank table label :
  make_table lines blank = Ok table ->
  Z.of_nat (length lines) <= 2 ^ 31 ->
  - 2 ^ 31 <= blank < 2 ^ 31 ->
  forallb (id_ok lines blank) (encode_label table label) = true.
Proof.
  intros Htable Hsize Hblank.
  induction label as [|c label IH]; [done|].
  unfold encode_label. cbn [unicode_split]. rewrite fmap_cons.
  fold (encode_label table label). cbn [forallb]. rewrite IH, andb_true_r.
  unfold id_ok.
  destruct (encodableb_char lines blank table c Htable)
    as [(_ & i & Hi & Hne & Hlookup)|(_ & Hlookup)]; rewrite Hlookup.
  - rewrite cast_int32_small by (apply lookup_lt_Some in Hi; lia).
    apply orb_true_iff. right. apply valid_indexb_spec. unfold valid_index.
    apply lookup_lt_Some in Hi. lia.
  - rewrite cast_int32_small by done. by rewrite Z.eqb_refl.
Qed.

Lemma pad_row_ids_ok lines blank width row :
  forallb (id_ok lines blank) row = true ->
  forallb (id_ok lines blank) (pad_row width blank row) = true.
Proof.
  intros Hrow. unfold pad_row. rewrite forallb_app, Hrow. simpl.
  induction (width - length row)%nat as [|n IH]; [done|].
  simpl. rewrite IH, andb_true_r. unfold id_ok. by rewrite Z.eqb_refl.
Qed.

(** X9. The label batches of the loader can always be scored: for a table
    built from the lines of the table file (at most 2^31 of them) and a
    [blank_index] that fits in 32 bits, the batch [_convert_label] makes of
    any labels, made dense with [blank_index] as fill, is decoded by
    [map_to_chars] without an exception, whatever the labels are and with
    either value of [merge_repeated]. *)
Theorem label_batch_decodes {Image : Type} (image : Image)
    lines blank table labels merge :
  make_table lines blank = Ok table ->
  Z.of_nat (length lines) <= 2 ^ 31 ->
  - 2 ^ 31 <= blank < 2 ^ 31 ->
  is_ok (dense ← sparse_to_dense (_convert_label table image labels).2 blank;
         map_to_chars dense lines blank merge) = true.
Proof.
  intros Htable Hsize Hblank.
  rewrite convert_label_dense, bind_ok by done.
  apply map_to_chars_ids_ok. apply forallb_forall.
  intros row Hrow%list_elem_of_In.
  apply list_elem_of_fmap in Hrow as (row' & -> & Hrow').
  apply list_elem_of_fmap in Hrow' as (label & -> & _).
  by apply pad_row_ids_ok, (encode_label_ids_ok lines blank table label).
Qed.

Lemma label_batch_decodes_witness :
  is_ok (dense ← sparse_to_dense (_convert_label abc_lookup tt ["xyz"; "aab"; ""]).2 0;
         map_to_chars dense abc_table 0 true) = true.
Proof.
  apply (label_batch_decodes tt abc_table 0 abc_lookup ["xyz"; "aab"; ""] true).
  - vm_compute. reflexivity.
  - vm_compute. discriminate.
  - lia.
Defined.

(** ** [read_imagepaths_and_labels] *)

(** Loops of the form [out = []; for x in l: out.append(f(x))]. *)
Lemma collect_ok {A B : Type} (f : A -> result B) acc (l : list A) r :
  for_each (fun acc x => y ← f x; Ok (acc ++ [y])) acc l = Ok r ->
  exists ys, Forall2 (fun x y => f x = Ok y) l ys /\ r = acc ++ ys.
Proof.
  revert acc. induction l as [|x l IH]; intros acc.
  - rewrite for_each_nil. intros [= <-]. exists []. split; [constructor|].
    by rewrite app_nil_r.
  - rewrite for_each_cons. destruct (f x) as [y|e] eqn:Ey; [|done].
    rewrite !bind_ok. intros (ys & Hys & ->)%IH.
    exists (y :: ys). split; [by constructor|]. by rewrite <- app_assoc.
Qed.

Lemma collect_raise {A B : Type} (f : A -> result B) acc (l : list A) e :
  for_each (fun acc x => y ← f x; Ok (acc ++ [y])) acc l = Raise e ->
  exists x, x ∈ l /\ f x = Raise e.
Proof.
  revert acc. induction l as [|x l IH]; intros acc; [done|].
  rewrite for_each_cons. destruct (f x) as [y|e'] eqn:Ey.
  - rewrite !bind_ok. intros (x' & Hx' & Hf)%IH. exists x'. split; [by right|done].
  - intros [= <-]. exists x. split; [by left|done].
Qed.

Lemma collect_fails {A B : Type} (f : A -> result B) acc (l : list A) x e :
  x ∈ l -> f x = Raise e ->
  exists e', for_each (fun acc x => y ← f x; Ok (acc ++ [y])) acc l = Raise e'.
Proof.
  intros Hx Hf.
  destruct (for_each _ acc l) as [r|e'] eqn:E; [|by exists e'].
  apply collect_ok in E as (ys & Hys & _).
  apply list_elem_of_lookup in Hx as [i Hi].
  destruct (Forall2_lookup_l _ _ _ _ _ Hys Hi) as (y & _ & Hy). congruence.
Qed.

Lemma split_on_no_sep sep s : contains sep s = false -> split_on sep s = [s].
Proof.
  induction s as [|c s IH]; [done|].
  cbn [contains split_on]. destruct (Ascii.eqb c sep); [done|].
  rewrite orb_false_l. intros Hs. by rewrite (IH Hs).
Qed.

Lemma np_array_is_ok object_arrays lines :
  is_ok (np_array object_arrays ((fun line => split_ws (strip line)) <$> lines))
  = object_arrays || same_width lines.
Proof.
  unfold np_array, same_width. destruct lines as [|line lines']; [by destruct object_arrays|].
  rewrite fmap_cons.
  assert (Hw : forallb
                 (fun row' => (length row' =? length (split_ws (strip line)))%nat)
                 ((fun line => split_ws (strip line)) <$> lines')
               = forallb
                   (fun line' => (length (split_ws (strip line'))
                                  =? length (split_ws (strip line)))%nat) lines').
  { induction lines' as [|l ls IH]; [done|]. rewrite fmap_cons. cbn [forallb].
    by rewrite IH. }
  rewrite Hw. destruct (forallb _ lines'); [by rewrite orb_true_r|].
  by destruct object_arrays.
Qed.

Lemma np_array_ok object_arrays rows content :
  np_array object_arrays rows = Ok content ->
  (content = EmptyVector /\ rows = []) \/
  (content = Matrix ((fun row' : list string => np_item <$> row') <$> rows)
   /\ rows <> []) \/
  content = ObjectVector rows.
Proof.
  unfold np_array. destruct rows as [|row rows'].
  - intros [= <-]. by left.
  - destruct (forallb _ rows'); [intros [= <-]; right; by left|].
    destruct object_arrays; [|done]. intros [= <-]. by right; right.
Qed.

(** One file with a line whose first token, as the array stores it, has no
    ["_"] (a line without any token is such a line), or with no line at
    all. The exception is that of [np.array] when it refuses the rows, else
    [IndexError]. *)
Lemma read_annotation_file_raises object_arrays readlines acc annpath lines :
  readlines annpath = Ok lines ->
  lines = [] \/
  (exists line, line ∈ lines /\ contains "_" (np_item (first_token line)) = false) ->
  read_annotation_file object_arrays readlines acc annpath
  = Raise (if object_arrays || same_width lines then IndexError else ValueError).
Proof.
  intros Hlines Hbad. unfold read_annotation_file. rewrite Hlines, bind_ok.
  pose proof (np_array_is_ok object_arrays lines) as Hok.
  destruct (np_array object_arrays _) as [content|e] eqn:Earray.
  2:{ simpl in Hok. rewrite <- Hok.
      unfold np_array in Earray.
      destruct ((fun line => split_ws (strip line)) <$> lines); [done|].
      destruct (forallb _ _); [done|]. destruct object_arrays; [done|].
      by injection Earray as <-. }
  simpl in Hok. rewrite <- Hok, bind_ok.
  apply np_array_ok in Earray as [[-> _]|[[-> Hrows]| ->]]; [done| |done].
  destruct Hbad as [->|(line & Hline & Hsep)]; [done|].
  unfold column0.
  match goal with
  | |- context [for_each ?f [] ?l ≫= _] => destruct (for_each f [] l) as [items|e] eqn:Ecol
  end.
  2:{ apply collect_raise in Ecol as (r & _ & He).
      apply getitem_raises in He. by subst. }
  rewrite bind_ok.
  apply collect_ok in Ecol as (items' & Hitems & ->). rewrite app_nil_l.
  assert (Hitem : np_item (first_token line) ∈ items').
  { assert (Hin : (np_item <$> split_ws (strip line))
                  ∈ (fun row' : list string => np_item <$> row')
                    <$> ((fun line => split_ws (strip line)) <$> lines)).
    { apply list_elem_of_fmap. exists (split_ws (strip line)). split; [done|].
      apply list_elem_of_fmap. by exists line. }
    apply list_elem_of_lookup in Hin as [i Hi].
    destruct (Forall2_lookup_l _ _ _ _ _ Hitems Hi) as (item & Hitem & Hget).
    apply list_elem_of_lookup_2 in Hitem.
    unfold first_token. destruct (split_ws (strip line)) as [|token tokens];
      [done|].
    rewrite fmap_cons in Hget. cbn in Hget. by injection Hget as <-. }
  assert (Hfail : getitem (split_on "_" (np_item (first_token line))) 1
                  = Raise IndexError).
  { by rewrite (split_on_no_sep _ _ Hsep). }
  destruct (collect_fails (fun line => getitem (split_on "_" line) 1) []
              items' _ _ Hitem Hfail) as [e He].
  rewrite He.
  apply collect_raise in He as (token & _ & He).
  apply getitem_raises in He. by subst.
Qed.

Lemma for_each_fails {S A : Type} (body : S -> A -> result S) st (l : list A) x :
  x ∈ l -> (forall st', is_ok (body st' x) = false) ->
  is_ok (for_each body st l) = false.
Proof.
  intros Hx Hbody. revert st. induction l as [|y l IH]; intros st.
  - by apply elem_of_nil in Hx.
  - rewrite for_each_cons. apply elem_of_cons in Hx as [<-|Hx].
    + specialize (Hbody st). by destruct (body st x).
    + destruct (body st y) as [st'|e]; [|done]. rewrite bind_ok. by apply IH.
Qed.

(** X10. Empty files and empty lines. If one of the annotation files can be
    read and has no line at all, or has a line without any token (an empty
    line, or one of whitespace only), [read_imagepaths_and_labels] returns
    nothing, not even the samples of the other lines and files: it raises.
    When that file is the only one, the exception is [IndexError], from
    [content[:, 0]], on numpy before 1.24 and, on every numpy, when the lines
    of the file all have the same number of tokens (none, then); it is
    [ValueError], from [np.array], on numpy from 1.24 on when they do
    not. *)
Theorem annotation_empty_line_raises object_arrays readlines annotation_path
    annpath lines :
  annpath ∈ split_on "," annotation_path ->
  readlines annpath = Ok lines ->
  lines = [] \/ (exists line, line ∈ lines /\ split_ws (strip line) = []) ->
  is_ok (read_imagepaths_and_labels object_arrays readlines annotation_path) = false /\
  (split_on "," annotation_path = [annpath] ->
   read_imagepaths_and_labels object_arrays readlines annotation_path
   = Raise (if object_arrays || same_width lines then IndexError else ValueError)).
Proof.
  intros Hin Hlines Hbad.
  assert (Hraise : forall acc,
             read_annotation_file object_arrays readlines acc annpath
             = Raise (if object_arrays || same_width lines
                      then IndexError else ValueError)).
  { intros acc. apply (read_annotation_file_raises _ _ _ _ lines Hlines).
    destruct Hbad as [->|(line & Hline & Htokens)]; [by left|right].
    exists line. split; [done|]. unfold first_token. by rewrite Htokens. }
  split.
  - unfold read_imagepaths_and_labels. apply (for_each_fails _ _ _ annpath Hin).
    intros acc. by rewrite Hraise.
  - intros Hone. unfold read_imagepaths_and_labels.
    by rewrite Hone, for_each_cons, Hraise.
Qed.

Lemma annotation_empty_line_raises_witness :
  is_ok (read_imagepaths_and_labels false annotation_files "gap.txt") = false /\
  (split_on "," "gap.txt" = ["gap.txt"] ->
   read_imagepaths_and_labels false annotation_files "gap.txt"
   = Raise (if false
               || same_width ["1_hello_0.jpg 0" +:+ newline; newline;
                              "2_world_1.jpg 1" +:+ newline]
            then IndexError else ValueError)).
Proof.
  apply (annotation_empty_line_raises false annotation_files "gap.txt" "gap.txt"
           ["1_hello_0.jpg 0" +:+ newline; newline; "2_world_1.jpg 1" +:+ newline]).
  - apply list_elem_of_In. simpl. left. reflexivity.
  - reflexivity.
  - right. exists newline. split; [|reflexivity].
    apply list_elem_of_In. simpl. right. left. reflexivity.
Defined.

(** The empty line of [gap.txt] on the two numpys, alone and after another
    file. *)
Example annotation_empty_line_ex :
  read_imagepaths_and_labels true annotation_files "gap.txt" = Raise IndexError /\
  read_imagepaths_and_labels false annotation_files "gap.txt" = Raise ValueError /\
  read_imagepaths_and_labels false annotation_files "val.txt,gap.txt"
  = Raise ValueError.
Proof. repeat split; vm_compute; reflexivity. Qed.

(** X11. File names without ["_"]. If one of the annotation files can be
    read and the first token of one of its lines has no ["_"] in it, there
    is no second field to take as the label, and
    [read_imagepaths_and_labels] raises: the format with the label as second
    token of the line is not read. When that file is the only one, the
    exception is [IndexError] on numpy before 1.24 and, on every numpy, when
    the lines of the file all have the same number of tokens; it is
    [ValueError], from [np.array], on numpy from 1.24 on when they do
    not. *)
Theorem annotation_no_underscore_raises object_arrays readlines annotation_path
    annpath lines line :
  annpath ∈ split_on "," annotation_path ->
  readlines annpath = Ok lines ->
  line ∈ lines ->
  contains "_" (np_item (first_token line)) = false ->
  is_ok (read_imagepaths_and_labels object_arrays readlines annotation_path) = false /\
  (split_on "," annotation_path = [annpath] ->
   read_imagepaths_and_labels object_arrays readlines annotation_path
   = Raise (if object_arrays || same_width lines then IndexError else ValueError)).
Proof.
  intros Hin Hlines Hline Hsep.
  assert (Hraise : forall acc,
             read_annotation_file object_arrays readlines acc annpath
             = Raise (if object_arrays || same_width lines
                      then IndexError else ValueError)).
  { intros acc. apply (read_annotation_file_raises _ _ _ _ lines Hlines).
    right. by exists line. }
  split.
  - unfold read_imagepaths_and_labels. apply (for_each_fails _ _ _ annpath Hin).
    intros acc. by rewrite Hraise.
  - intros Hone. unfold read_imagepaths_and_labels.
    by rewrite Hone, for_each_cons, Hraise.
Qed.

Lemma annotation_no_underscore_raises_witness :
  is_ok (read_imagepaths_and_labels false example_format_files "words.txt") = false /\
  (split_on "," "words.txt" = ["words.txt"] ->
   read_imagepaths_and_labels false example_format_files "words.txt"
   = Raise (if false
               || same_width ["1.jpg hello" +:+ newline; "2.jpg world" +:+ newline]
            then IndexError else ValueError)).
Proof.
  apply (annotation_no_underscore_raises false example_format_files
           "words.txt" "words.txt"
           ["1.jpg hello" +:+ newline; "2.jpg world" +:+ newline]
           ("2.jpg world" +:+ newline)).
  - apply list_elem_of_In. simpl. left. reflexivity.
  - reflexivity.
  - apply list_elem_of_In. simpl. right. left. reflexivity.
  - reflexivity.
Defined.

(** The file in the format [XX.jpg label] is refused with [IndexError] on
    both numpys: its lines have two tokens each. *)
Example annotation_no_underscore_ex :
  read_imagepaths_and_labels true example_format_files "words.txt" = Raise IndexError /\
  read_imagepaths_and_labels false example_format_files "words.txt" = Raise IndexError.
Proof. split; vm_compute; reflexivity. Qed.

Lemma for_each_invariant {S A : Type} (P : S -> Prop) (body : S -> A -> result S)
    st (l : list A) st' :
  (forall st x st', P st -> body st x = Ok st' -> P st') ->
  P st -> for_each body st l = Ok st' -> P st'.
Proof.
  intros Hbody. revert st. induction l as [|x l IH]; intros st Hst.
  - rewrite for_each_nil. by intros [= <-].
  - rewrite for_each_cons. destruct (body st x) as [st1|e] eqn:E; [|done].
    rewrite bind_ok. apply IH. by apply (Hbody st x).
Qed.

Lemma getitem_elem {A : Type} (l : list A) (i : Z) (x : A) :
  getitem l i = Ok x -> x ∈ l.
Proof.
  unfold getitem. destruct (_ && _); [|done].
  destruct (l !! _) as [y|] eqn:E; [|done].
  intros [= <-]. by apply list_elem_of_lookup_2 in E.
Qed.

Lemma split_on_fields sep s :
  Forall (fun field => contains sep field = false) (split_on sep s).
Proof.
  induction s as [|c s IH]; [by repeat constructor|].
  cbn [split_on]. destruct (Ascii.eqb c sep) eqn:Ec; [by constructor|].
  destruct (split_on sep s) as [|field fields]; [by constructor; [simpl; rewrite Ec|]|].
  inversion IH as [|? ? Hfield Hfields]; subst.
  constructor; [|done]. simpl. by rewrite Ec, Hfield.
Qed.

Lemma read_annotation_file_ok object_arrays readlines acc annpath r :
  read_annotation_file object_arrays readlines acc annpath = Ok r ->
  exists paths labels,
    r = (acc.1 ++ paths, acc.2 ++ labels) /\
    length paths = length labels /\
    Forall (fun label => contains "_" label = false) labels.
Proof.
  unfold read_annotation_file.
  destruct (readlines annpath) as [lines|e]; [|done]. rewrite bind_ok.
  destruct (np_array object_arrays _) as [content|e]; [|done]. rewrite bind_ok.
  destruct (column0 _) as [items|e]; [|done]. rewrite bind_ok.
  destruct (for_each _ [] items) as [labels|e] eqn:El; [|done].
  rewrite bind_ok. intros [= <-].
  apply collect_ok in El as (labels' & Hlabels & ->). rewrite app_nil_l.
  exists (path_join (dirname annpath) <$> items), labels'.
  split; [done|]. split.
  - rewrite length_fmap. by apply Forall2_length in Hlabels.
  - apply Forall_forall. intros label Hlabel.
    apply list_elem_of_lookup in Hlabel as [i Hi].
    destruct (Forall2_lookup_r _ _ _ _ _ Hlabels Hi) as (token & _ & Hget).
    apply getitem_elem in Hget.
    pose proof (split_on_fields "_" token) as Hfields.
    rewrite Forall_forall in Hfields. by apply Hfields.
Qed.

Lemma read_imagepaths_and_labels_paired object_arrays readlines annotation_path
    imgpaths labels :
  read_imagepaths_and_labels object_arrays readlines annotation_path
  = Ok (imgpaths, labels) ->
  length imgpaths = length labels /\
  Forall (fun label => contains "_" label = false) labels.
Proof.
  unfold read_imagepaths_and_labels.
  apply (for_each_invariant
           (fun acc : list string * list string =>
              length acc.1 = length acc.2 /\
              Forall (fun label => contains "_" label = false) acc.2)).
  - intros acc annpath acc' [Hlen Hall] Hfile.
    apply read_annotation_file_ok in Hfile as (ps & ls & -> & Hlen' & Hall').
    cbn [fst snd]. split; [rewrite !length_app; lia|by apply Forall_app].
  - by split.
Qed.

(** X12. Whatever the annotation files contain and whatever the version of
    numpy, when [read_imagepaths_and_labels] returns, it returns as many
    labels as image paths, and no label has a ["_"] in it. *)
Theorem samples_are_paired object_arrays readlines annotation_path imgpaths labels :
  read_imagepaths_and_labels object_arrays readlines annotation_path
  = Ok (imgpaths, labels) ->
  length imgpaths = length labels /\
  Forall (fun label => contains "_" label = false) labels.
Proof. apply read_imagepaths_and_labels_paired. Qed.

Lemma samples_are_paired_witness :
  length ["data/1/2/373_coley_14845.jpg"; "data/1/2/372_steered_74435.jpg";
          "9_coley_1.jpg"]
  = length ["coley"; "steered"; "coley"] /\
  Forall (fun label => contains "_" label = false) ["coley"; "steered"; "coley"].
Proof.
  apply (samples_are_paired false annotation_files "data/train.txt,val.txt").
  vm_compute. reflexivity.
Defined.

(** ** Batches *)

Lemma batch_sizes_bounds (batch_size n : nat) :
  (0 < batch_size)%nat ->
  Forall (fun s => (0 < s <= batch_size)%nat) (batch_sizes batch_size n).
Proof.
  intros Hbs. unfold batch_sizes. apply Forall_app. split.
  - apply Forall_replicate. lia.
  - destruct (Nat.eqb_spec (n mod batch_size) 0); [constructor|].
    repeat constructor; [lia|].
    pose proof (Nat.mod_upper_bound n batch_size). lia.
Qed.

Lemma batch_sizes_before_last (batch_size n i s : nat) :
  batch_sizes batch_size n !! i = Some s ->
  (S i < length (batch_sizes batch_size n))%nat ->
  s = batch_size.
Proof.
  unfold batch_sizes. intros Hi Hlast.
  rewrite length_app, length_replicate in Hlast.
  assert (Hi' : (i < n / batch_size)%nat).
  { destruct (n mod batch_size =? 0)%nat; simpl in Hlast; lia. }
  rewrite lookup_app_l in Hi by (by rewrite length_replicate).
  apply lookup_replicate in Hi as [-> _]. done.
Qed.

Lemma sum_list_app (l k : list nat) :
  sum_list (l ++ k) = (sum_list l + sum_list k)%nat.
Proof. induction l as [|x l IH]; simpl; [done|]. rewrite IH. lia. Qed.

Lemma sum_list_passes {A : Type} (f : A -> nat) (passes : nat) (l : list A) :
  sum_list (f <$> concat (replicate passes l)) = (passes * sum_list (f <$> l))%nat.
Proof.
  induction passes as [|passes IH]; [done|].
  cbn [replicate concat]. rewrite fmap_app, sum_list_app, IH. lia.
Qed.

Lemma fmap_seq_const {A : Type} (x : A) (start n : nat) :
  (fun _ : nat => x) <$> seq start n = replicate n x.
Proof.
  revert start. induction n as [|n IH]; intros start; [done|].
  cbn [seq replicate]. by rewrite fmap_cons, IH.
Qed.

Section BatchFacts.
Context {Image : Type}.
Variable load_image : Z -> Z -> string -> result Image.
Variable shuffle_order : nat -> list (string * string) -> list (string * string).
Variables image_height image_width : Z.

Lemma make_dataset_passes table imgpaths labels (batch_size : Z) (repeat : nat) data :
  make_dataset load_image shuffle_order table image_height image_width
    imgpaths labels batch_size false repeat = Ok data ->
  length imgpaths = length labels /\ 0 < batch_size /\
  data = concat (replicate repeat
           ((fun b => _convert_label table (fst <$> b) (snd <$> b))
            <$> batch (Z.to_nat batch_size)
                  (decoded_samples load_image image_height image_width
                     imgpaths labels))).
Proof.
  unfold make_dataset.
  destruct (Nat.eqb_spec (length imgpaths) (length labels)) as [Hlen|]; [|done].
  cbn [negb]. destruct (Z.leb_spec batch_size 0); [done|].
  intros [= <-]. split; [done|]. split; [done|]. f_equal.
  apply (fmap_seq_const
           ((fun b => _convert_label table (fst <$> b) (snd <$> b))
            <$> batch (Z.to_nat batch_size)
                  (decoded_samples load_image image_height image_width
                     imgpaths labels))).
Qed.

Lemma one_pass_sizes table (batch_size : nat) imgpaths labels :
  (0 < batch_size)%nat -> length imgpaths = length labels ->
  (fun b : list Image * SparseTensor => length b.1)
  <$> ((fun b => _convert_label table (fst <$> b) (snd <$> b))
       <$> batch batch_size
             (decoded_samples load_image image_height image_width imgpaths labels))
  = batch_sizes batch_size
      (length imgpaths
       - failed_samples load_image image_height image_width imgpaths labels).
Proof.
  intros Hbs Hlen.
  rewrite <- decoded_samples_length by done.
  rewrite <- batch_lengths by done. rewrite <- list_fmap_compose.
  apply list_fmap_ext. intros i b _. simpl. by rewrite length_fmap.
Qed.

(** X13. Batches in general. For any samples and any [batch_size] above 0,
    without shuffling and in one pass: no batch is empty, none has more than
    [batch_size] samples, every batch but the last has exactly [batch_size],
    the images of the batches are those of the samples whose image could be
    loaded, in the order of the samples, and their number is the number of
    samples less the number of those whose image could not be loaded. *)
Theorem batches_in_general table imgpaths labels (batch_size : Z) :
  length imgpaths = length labels -> 0 < batch_size ->
  exists data,
    make_dataset load_image shuffle_order table image_height image_width
      imgpaths labels batch_size false 1 = Ok data /\
    Forall (fun b => (0 < length b.1 <= Z.to_nat batch_size)%nat) data /\
    (forall (i : nat) b, data !! i = Some b -> (S i < length data)%nat ->
                         length b.1 = Z.to_nat batch_size) /\
    concat (fst <$> data)
    = fst <$> decoded_samples load_image image_height image_width imgpaths labels /\
    sum_list ((fun b => length b.1) <$> data)
    = (length imgpaths
       - failed_samples load_image image_height image_width imgpaths labels)%nat.
Proof.
  intros Hlen Hbs. eexists. split.
  { by apply make_dataset_one_pass. }
  pose proof (one_pass_sizes table (Z.to_nat batch_size) imgpaths labels
                ltac:(lia) Hlen) as Hsizes.
  set (data := (fun b => _convert_label table (fst <$> b) (snd <$> b))
               <$> batch (Z.to_nat batch_size)
                     (decoded_samples load_image image_height image_width
                        imgpaths labels)) in *.
  split; [|split; [|split]].
  - pose proof (batch_sizes_bounds (Z.to_nat batch_size)
                  (length imgpaths
                   - failed_samples load_image image_height image_width
                       imgpaths labels) ltac:(lia)) as Hb.
    rewrite <- Hsizes in Hb. by apply Forall_fmap in Hb.
  - intros i b Hi Hlast.
    apply (batch_sizes_before_last (Z.to_nat batch_size)
             (length imgpaths
              - failed_samples load_image image_height image_width imgpaths labels)
             i).
    + rewrite <- Hsizes, list_lookup_fmap, Hi. done.
    + by rewrite <- Hsizes, length_fmap.
  - unfold data. rewrite <- list_fmap_compose.
    rewrite <- (batch_concat (Z.to_nat batch_size)
                  (decoded_samples load_image image_height image_width
                     imgpaths labels)) at 2.
    by rewrite fmap_concat.
  - rewrite Hsizes, <- decoded_samples_length by done.
    rewrite <- (batch_lengths (Z.to_nat batch_size)) by lia.
    by rewrite sum_list_concat_lengths, batch_concat.
Qed.

(** X14. The size of the loader and what it delivers. When [__init__]
    returns a loader (without shuffling), [len] of it is the number of
    samples found in the annotation files, whether or not their images can
    be loaded, and the batches of the dataset hold, pass after pass,
    [repeat] times the samples whose image could be loaded: that many
    samples less than [repeat * len] are missing as images failed. *)
Theorem loader_size_and_delivery (object_arrays : bool)
    (readlines table_lines : string -> result (list string))
    annotation_paths table_path blank (batch_size : Z) (repeat : nat) loader :
  __init__ object_arrays readlines table_lines load_image shuffle_order
    annotation_paths image_height image_width table_path blank batch_size
    false repeat = Ok loader ->
  exists imgpaths labels,
    read_imagepaths_and_labels object_arrays readlines annotation_paths
    = Ok (imgpaths, labels) /\
    __len__ loader = length imgpaths /\
    sum_list ((fun b => length b.1) <$> __call__ loader)
    = (repeat
       * (length imgpaths
          - failed_samples load_image image_height image_width imgpaths labels))%nat.
Proof.
  unfold __init__.
  destruct (read_imagepaths_and_labels object_arrays readlines annotation_paths)
    as [[imgpaths labels]|e]; [|done].
  rewrite bind_ok. cbn [fst snd].
  destruct (table_lines table_path) as [lines|e]; [|done]. rewrite bind_ok.
  destruct (make_table lines blank) as [table|e]; [|done]. rewrite bind_ok.
  destruct (make_dataset _ _ _ _ _ _ _ _ _ _) as [data|e] eqn:Edata; [|done].
  rewrite bind_ok. intros [= <-].
  exists imgpaths, labels. split; [done|]. split; [done|].
  apply make_dataset_passes in Edata as (Hlen & Hbs & ->).
  unfold __call__. cbn [dataset].
  rewrite sum_list_passes, (one_pass_sizes table (Z.to_nat batch_size)) by lia.
  rewrite <- decoded_samples_length by done.
  rewrite <- (batch_lengths (Z.to_nat batch_size)) by lia.
  by rewrite sum_list_concat_lengths, batch_concat.
Qed.

End BatchFacts.

Lemma batches_in_general_witness :
  exists data,
    make_dataset load_five (fun _ => id) abc_lookup 32 100 five_paths five_labels
      3 false 1
    = Ok data /\
    Forall (fun b => (0 < length b.1 <= Z.to_nat 3)%nat) data /\
    (forall (i : nat) b, data !! i = Some b -> (S i < length data)%nat ->
                         length b.1 = Z.to_nat 3) /\
    concat (fst <$> data)
    = fst <$> decoded_samples load_five 32 100 five_paths five_labels /\
    sum_list ((fun b => length b.1) <$> data)
    = (length five_paths - failed_samples load_five 32 100 five_paths five_labels)%nat.
Proof.
  apply (batches_in_general load_five (fun _ => id) 32 100 abc_lookup
           five_paths five_labels 3);
    [reflexivity | lia].
Defined.

Lemma loader_size_and_delivery_witness :
  exists imgpaths labels,
    read_imagepaths_and_labels false annotation_files "data/train.txt,val.txt"
    = Ok (imgpaths, labels) /\
    __len__ two_pass_loader = length imgpaths /\
    sum_list ((fun b => length b.1) <$> __call__ two_pass_loader)
    = (2 * (length imgpaths - failed_samples load_val 32 100 imgpaths labels))%nat.
Proof.
  apply (loader_size_and_delivery load_val (fun _ => id) 32 100 false annotation_files
           (fun _ => Ok abc_table) "data/train.txt,val.txt" "table.txt" 0 2 2
           two_pass_loader).
  vm_compute. reflexivity.
Defined.

(** ** Padding *)

Lemma blanks_keep_text table blank merge st (n : nat) :
  text <$> for_each (char_step table blank merge) st (replicate n blank)
  = Ok (text st).
Proof.
  revert st. induction n as [|n IH]; intros st; [done|].
  cbn [replicate]. rewrite for_each_cons.
  pose proof (char_step_blank table blank merge st) as Hb.
  destruct (char_step table blank merge st blank) as [st'|e]; [|done].
  rewrite bind_ok, IH. simpl in Hb. by injection Hb as ->.
Qed.

(** X15. Padding with blanks is harmless: when every line is followed by
    blank ids up to a common width, as the dense form of a sparse batch with
    [blank_index] as fill is, the texts are what they are without the
    padding, and so is the exception if there is one; this for both values
    of [merge_repeated]. *)
Theorem padding_is_harmless inputs table blank merge (width : nat) :
  map_to_chars (pad_row width blank <$> inputs) table blank merge
  = map_to_chars inputs table blank merge.
Proof.
  induction inputs as [|line inputs IH]; [done|].
  rewrite fmap_cons, !map_to_chars_cons, IH. f_equal.
  unfold decode_text, decode_line, pad_row. rewrite for_each_app.
  destruct (for_each _ line_start line) as [st|e]; [|done].
  by rewrite bind_ok, blanks_keep_text.
Qed.

(** ** Paths *)

Lemma contains_split_on (c sep : ascii) (s : string) :
  contains c s = false ->
  Forall (fun field => contains c field = false) (split_on sep s).
Proof.
  induction s as [|a s IH]; [by repeat constructor|].
  cbn [contains]. intros [Ha Hs]%orb_false_iff. specialize (IH Hs).
  cbn [split_on]. destruct (Ascii.eqb a sep); [by constructor|].
  destruct (split_on sep s) as [|field fields].
  - repeat constructor. simpl. by rewrite Ha.
  - inversion IH as [|? ? Hfield Hfields]; subst.
    constructor; [|done]. simpl. by rewrite Ha, Hfield.
Qed.

Lemma dirname_no_sep (p : string) : contains "/" p = false -> dirname p = EmptyString.
Proof.
  intros Hp. unfold dirname.
  assert (head_of_path p = EmptyString) as ->; [|done].
  destruct p as [|c p]; [done|]. cbn [head_of_path]. by rewrite Hp.
Qed.

Lemma path_join_empty (b : string) : path_join EmptyString b = b.
Proof.
  unfold path_join. destruct b as [|c b]; [done|].
  destruct c as [[] [] [] [] [] [] [] []]; done.
Qed.

(** X16. Annotation files named without a directory. When no path of the
    list has a ["/"] in it and the files are in the MjSynth format, the
    image paths returned are the first tokens of the lines, as they are
    written in the files. *)
Theorem paths_without_directory object_arrays readlines annotation_path :
  contains "/" annotation_path = false ->
  mjsynth_files readlines annotation_path = true ->
  fst <$> read_imagepaths_and_labels object_arrays readlines annotation_path
  = Ok (concat ((fun annpath => first_token <$> file_lines readlines annpath)
                <$> split_on "," annotation_path)).
Proof.
  intros Hsep Hall. unfold read_imagepaths_and_labels.
  rewrite (read_annotation_files_mjsynth object_arrays readlines ([], []) _ Hall).
  cbn [fmap result_fmap fst app]. do 2 f_equal.
  pose proof (contains_split_on "/" "," annotation_path Hsep) as Hparts.
  induction Hparts as [|annpath annpaths Hpart Hparts IH]; [done|].
  rewrite !fmap_cons, IH. f_equal.
  apply list_fmap_ext. intros i line _. unfold sample_path.
  by rewrite (dirname_no_sep _ Hpart), path_join_empty.
Qed.

Lemma paths_without_directory_witness :
  fst <$> read_imagepaths_and_labels false annotation_files "val.txt"
  = Ok (concat ((fun annpath => first_token <$> file_lines annotation_files annpath)
                <$> split_on "," "val.txt")).
Proof.
  apply (paths_without_directory false annotation_files "val.txt"); reflexivity.
Defined.

(** ** Shuffling *)

Section ShuffleFacts.
Context {Image : Type}.
Variable load_image : Z -> Z -> string -> result Image.
Variable shuffle_order : nat -> list (string * string) -> list (string * string).
Variables image_height image_width : Z.

(** X17. Shuffling neither loses nor repeats a sample. If the order in
    which [Dataset.shuffle] yields the samples in the first pass is a
    rearrangement of them, the images in the batches of one shuffled pass
    are, up to their order, the images of the samples whose image could be
    loaded. *)
Theorem shuffle_keeps_samples table imgpaths labels (batch_size : Z) :
  (forall samples, shuffle_order 0%nat samples ≡ₚ samples) ->
  length imgpaths = length labels -> 0 < batch_size ->
  exists data,
    make_dataset load_image shuffle_order table image_height image_width
      imgpaths labels batch_size true 1 = Ok data /\
    concat (fst <$> data)
    ≡ₚ fst <$> decoded_samples load_image image_height image_width imgpaths labels.
Proof.
  intros Hperm Hlen Hbs. unfold make_dataset.
  rewrite Hlen, Nat.eqb_refl. cbn [negb].
  destruct (Z.leb_spec batch_size 0); [lia|].
  eexists. split; [done|].
  cbn [seq fmap list_fmap concat]. rewrite app_nil_r. unfold one_pass.
  set (shuffled :=
         ignore_errors
           ((fun s => _decode_and_resize load_image image_height image_width s.1 s.2)
            <$> shuffle_order 0%nat (zip imgpaths labels))).
  assert (Himages :
            concat (fst <$> ((fun b => _convert_label table (fst <$> b) (snd <$> b))
                             <$> batch (Z.to_nat batch_size) shuffled))
            = fst <$> shuffled).
  { rewrite <- (batch_concat (Z.to_nat batch_size) shuffled) at 2.
    rewrite fmap_concat. by rewrite <- list_fmap_compose. }
  rewrite Himages. unfold shuffled, decoded_samples, ignore_errors.
  by rewrite (Hperm (zip imgpaths labels)).
Qed.

End ShuffleFacts.

Lemma shuffle_keeps_samples_witness :
  exists data,
    make_dataset load_five (fun _ => reverse) abc_lookup 32 100
      five_paths five_labels 2 true 1
    = Ok data /\
    concat (fst <$> data)
    ≡ₚ fst <$> decoded_samples load_five 32 100 five_paths five_labels.
Proof.
  apply (shuffle_keeps_samples load_five (fun _ => reverse) 32 100 abc_lookup
           five_paths five_labels 2).
  - intros samples. apply reverse_Permutation.
  - reflexivity.
  - lia.
Defined.
